(** * beancount.query.query_env: column accessors, functions and aggregators

    A shallow embedding of [src/python/beancount/query/query_env.py].

    Python objects are embedded as follows.
    - [int] is [Z]; [Decimal] is a pair of a signed coefficient and an
      exponent, with exact arithmetic (rounding to the context precision,
      signed zeros, NaN and infinities are outside the embedding, and so is
      [float]);
    - [str] is [string], a set of strings is [gset string], [None] is a
      value of its own;
    - exceptions are the [Raise] outcome of a computation;
    - the aggregation store is a finite map from handles to values, and
      [Inventory] instances, which the aggregators mutate in place, live in a
      heap of objects that the store references by location. *)

From Stdlib Require Import ZArith Lia Permutation Ascii.
From stdpp Require Import gmap strings list.

(** ** Outcomes of a Python computation *)

Inductive pyerror :=
  | TypeError | KeyError | IndexError | AttributeError | ReError | CompilationError
  | Overflow.

Inductive result (A : Type) :=
  | Ok (a : A)
  | Raise (e : pyerror).
Arguments Ok {A} a.
Arguments Raise {A} e.

Definition rbind {A B} (r : result A) (k : A → result B) : result B :=
  match r with Ok a => k a | Raise e => Raise e end.

(** [[f(x) for x in xs]]: left to right, the first exception aborts. *)
Fixpoint rmap {A B} (f : A → result B) (xs : list A) : result (list B) :=
  match xs with
  | [] => Ok []
  | x :: xs' => rbind (f x) (λ y, rbind (rmap f xs') (λ ys, Ok (y :: ys)))
  end.

(** ** Numbers, dates and the ledger's value classes *)

(** A finite [Decimal]: [coefficient * 10 ^ exponent]. The sign is the sign
    of the coefficient; the sign that Python keeps for a zero is not kept. *)
Record Decimal := mkDecimal { coefficient : Z; exponent : Z }.

(** [beancount.core.amount.ZERO], which is [Decimal()]. *)
Definition ZERO : Decimal := mkDecimal 0 0.

(** The coefficient of [d] once written with exponent [e ≤ exponent d]. *)
Definition dec_align (d : Decimal) (e : Z) : Z :=
  (coefficient d * 10 ^ (exponent d - e))%Z.

(** The sum of two numbers before it is rounded: exact, with the smaller
    of the two exponents. *)
Definition dec_exact_add (a b : Decimal) : Decimal :=
  let e := Z.min (exponent a) (exponent b) in
  mkDecimal (dec_align a e + dec_align b e) e.

(** The context of the arithmetic, as the [decimal] module sets it up and
    as this program leaves it: 28 digits, rounding to the nearest and, in
    the middle, to the even neighbour, overflow trapped. *)
Definition prec : Z := 28.
Definition Emax : Z := 999999.
Definition Emin : Z := -999999.
Definition Etiny : Z := Emin - prec + 1.
Definition Etop : Z := Emax - prec + 1.

(** [len(str(n))] for [n > 0]: the number of decimal digits. The fuel is
    the number of binary digits, which is no less. *)
Fixpoint digits_upto (fuel : nat) (n : Z) : Z :=
  match fuel with
  | O => 1
  | S fuel' => if (n <? 10)%Z then 1 else (1 + digits_upto fuel' (n / 10))%Z
  end.

Definition num_digits (n : Z) : Z := digits_upto (Z.to_nat (Z.log2 n)) n.

(** [n / 10 ^ k] for [n ≥ 0] and [k > 0], rounded to the nearest integer,
    and to the even one of the two when [n] is in the middle. *)
Definition round_half_even (n k : Z) : Z :=
  let p := (10 ^ k)%Z in
  let q := (n / p)%Z in
  let r := (n mod p)%Z in
  if (2 * r <? p)%Z then q
  else if (p <? 2 * r)%Z then (q + 1)%Z
  else if Z.even q then q else (q + 1)%Z.

(** [Decimal._fix]: the exact result of an operation brought into the
    context. A coefficient of more than [prec] digits is rounded, one
    below [Etiny] as well; a number beyond [Emax] raises. *)
Definition dec_fix (d : Decimal) : result Decimal :=
  let c := coefficient d in
  let e := exponent d in
  if (c =? 0)%Z then Ok (mkDecimal 0 (Z.min (Z.max e Etiny) Emax))
  else
    let exp_min := (num_digits (Z.abs c) + e - prec)%Z in
    if (Etop <? exp_min)%Z then Raise Overflow
    else
      let exp_min := Z.max exp_min Etiny in
      if (e <? exp_min)%Z then
        let q := round_half_even (Z.abs c) (exp_min - e) in
        let carry := (q =? 10 ^ prec)%Z in
        let q := if carry then (q / 10)%Z else q in
        let exp_min := if carry then (exp_min + 1)%Z else exp_min in
        if (Etop <? exp_min)%Z then Raise Overflow
        else Ok (mkDecimal (Z.sgn c * q) exp_min)
      else Ok d.

(** [a + b] on [Decimal]: the exact sum, brought into the context. *)
Definition dec_add (a b : Decimal) : result Decimal :=
  dec_fix (dec_exact_add a b).

Definition dec_ltb (a b : Decimal) : bool :=
  let e := Z.min (exponent a) (exponent b) in
  (dec_align a e <? dec_align b e)%Z.

Definition dec_of_int (n : Z) : Decimal := mkDecimal n 0.

Record date := mkDate { year : Z; month : Z; day : Z }.

Definition date_ltb (a b : date) : bool :=
  (year a <? year b)%Z
  || ((year a =? year b)%Z
      && ((month a <? month b)%Z
          || ((month a =? month b)%Z && (day a <? day b)%Z))).

Record Amount := mkAmount { amount_number : Decimal; amount_currency : string }.

Record Lot := mkLot {
  lot_currency : string;
  lot_cost : option Amount;
  lot_date : option date }.

Record Position := mkPosition { position_lot : Lot; position_number : Decimal }.

(** Locations of [Inventory] objects in the heap. *)
Definition loc := positive.

Inductive value :=
  | VNone
  | VBool (b : bool)
  | VInt (n : Z)
  | VDecimal (d : Decimal)
  | VStr (s : string)
  | VDate (d : date)
  | VSet (s : gset string)
  | VAmount (a : Amount)
  | VPosition (p : Position)
  | VInventory (l : loc).

(** The static types that nodes of this module declare as their [dtype]. *)
Inductive dtype :=
  | t_str | t_int | t_bool | t_date | t_set
  | t_Decimal | t_Amount | t_Position | t_Inventory.

#[global] Instance dtype_eq_dec : EqDecision dtype.
Proof. solve_decision. Defined.

Definition dtype_code (t : dtype) : nat :=
  match t with
  | t_str => 0 | t_int => 1 | t_bool => 2 | t_date => 3 | t_set => 4
  | t_Decimal => 5 | t_Amount => 6 | t_Position => 7 | t_Inventory => 8
  end.

Definition dtype_of_code (n : nat) : option dtype :=
  match n with
  | 0 => Some t_str | 1 => Some t_int | 2 => Some t_bool | 3 => Some t_date
  | 4 => Some t_set | 5 => Some t_Decimal | 6 => Some t_Amount
  | 7 => Some t_Position | 8 => Some t_Inventory | _ => None
  end.

#[global] Instance dtype_countable : Countable dtype.
Proof.
  apply (inj_countable dtype_code dtype_of_code). by intros [].
Defined.

(** [isinstance(v, t)] for the values above. A [bool] is an [int]. *)
Definition has_dtype (t : dtype) (v : value) : bool :=
  match t, v with
  | t_str, VStr _ | t_int, VInt _ | t_int, VBool _ | t_bool, VBool _
  | t_date, VDate _ | t_set, VSet _ | t_Decimal, VDecimal _
  | t_Amount, VAmount _ | t_Position, VPosition _
  | t_Inventory, VInventory _ => true
  | _, _ => false
  end.

(** ** Python operators on values *)

(** Truth value testing, as used by [x or y] and [y if x else z]. The
    truth value of an instance of a ledger class is decided by that class
    and is given where it is needed. *)
Definition truthy (v : value) : bool :=
  match v with
  | VNone => false
  | VBool b => b
  | VInt n => negb (n =? 0)%Z
  | VDecimal d => negb (coefficient d =? 0)%Z
  | VStr s => negb (String.eqb s "")
  | VSet s => negb (bool_decide (s = ∅))
  | VDate _ | VAmount _ | VPosition _ | VInventory _ => true
  end.

(** [a or b] for operands whose evaluation has no effect. *)
Definition py_or (a b : value) : value := if truthy a then a else b.

(** The integer behind an [int] or a [bool]. *)
Definition as_int (v : value) : option Z :=
  match v with
  | VInt n => Some n
  | VBool b => Some (Z.b2z b)
  | _ => None
  end.

(** [a + b]. *)
Definition py_add (a b : value) : result value :=
  match a, b with
  | VDecimal x, VDecimal y => rbind (dec_add x y) (λ d, Ok (VDecimal d))
  | VDecimal x, _ =>
      match as_int b with
      | Some n => rbind (dec_add x (dec_of_int n)) (λ d, Ok (VDecimal d))
      | None => Raise TypeError
      end
  | _, VDecimal y =>
      match as_int a with
      | Some n => rbind (dec_add (dec_of_int n) y) (λ d, Ok (VDecimal d))
      | None => Raise TypeError
      end
  | VStr x, VStr y => Ok (VStr (x ++ y))
  | _, _ =>
      match as_int a, as_int b with
      | Some m, Some n => Ok (VInt (m + n))
      | _, _ => Raise TypeError
      end
  end.

(** [a < b]. The ledger classes ([Amount], [Position], [Inventory]) define
    their comparisons outside this module; they are not ordered here. *)
Definition py_lt (a b : value) : result bool :=
  match a, b with
  | VDecimal x, VDecimal y => Ok (dec_ltb x y)
  | VDecimal x, _ =>
      match as_int b with
      | Some n => Ok (dec_ltb x (dec_of_int n))
      | None => Raise TypeError
      end
  | _, VDecimal y =>
      match as_int a with
      | Some n => Ok (dec_ltb (dec_of_int n) y)
      | None => Raise TypeError
      end
  | VStr x, VStr y => Ok (String.ltb x y)
  | VDate x, VDate y => Ok (date_ltb x y)
  | VSet x, VSet y => Ok (bool_decide (x ⊂ y))
  | _, _ =>
      match as_int a, as_int b with
      | Some m, Some n => Ok (m <? n)%Z
      | _, _ => Raise TypeError
      end
  end.

(** [a > b], the reflected comparison. *)
Definition py_gt (a b : value) : result bool := py_lt b a.

(** ** Ledger rows

    A posting refers back to its parent transaction, and the transaction
    lists its postings. The cycle is cut at the list: a transaction lists
    the posting-local fields ([PostingFields]), and a posting row consists
    of these fields together with the parent transaction. *)

Record Source := mkSource { filename : string; lineno : Z }.

Record PostingFields := mkPostingFields {
  pf_account : string;
  pf_position : Position;
  pf_price : option Amount;
  pf_flag : option string }.

Record Transaction := mkTransaction {
  source : Source;
  txn_date : date;
  flag : string;
  payee : option string;
  narration : option string;
  tags : option (gset string);
  links : option (gset string);
  postings : list PostingFields }.

Record Posting := mkPosting { entry : Transaction; fields : PostingFields }.

Definition account (p : Posting) : string := pf_account (fields p).
Definition position (p : Posting) : Position := pf_position (fields p).
Definition price (p : Posting) : option Amount := pf_price (fields p).
Definition posting_flag (p : Posting) : option string := pf_flag (fields p).

(** A directive: a transaction, or a directive of another class, of which
    this module reads the class name, the source and the date only. *)
Inductive directive :=
  | ETransaction (t : Transaction)
  | EOther (class_name : string) (src : Source) (d : date).

Definition isinstance_Transaction (e : directive) : bool :=
  match e with ETransaction _ => true | EOther _ _ _ => false end.

Definition entry_source (e : directive) : Source :=
  match e with ETransaction t => source t | EOther _ s _ => s end.

Definition entry_date (e : directive) : date :=
  match e with ETransaction t => txn_date t | EOther _ _ d => d end.

(** [type(entry).__name__]. *)
Definition type_name (e : directive) : string :=
  match e with ETransaction _ => "Transaction" | EOther n _ _ => n end.

(** The row handed to a node: an entry or a posting. *)
Inductive context :=
  | CtxEntry (e : directive)
  | CtxPosting (p : Posting).

(** [str.lower] on ASCII letters. *)
Definition ascii_lower (c : ascii) : ascii :=
  let n := nat_of_ascii c in
  if (65 <=? n)%nat && (n <=? 90)%nat then ascii_of_nat (n + 32) else c.

Fixpoint lower (s : string) : string :=
  match s with
  | EmptyString => EmptyString
  | String c s' => String (ascii_lower c) (lower s')
  end.

Definition opt_str (o : option string) : value :=
  match o with Some s => VStr s | None => VNone end.

Definition opt_set (o : option (gset string)) : value :=
  match o with Some s => VSet s | None => VNone end.

Definition opt_amount (o : option Amount) : value :=
  match o with Some a => VAmount a | None => VNone end.

(** ** What this module imports from [beancount.core] and [re]

    The classes and functions below are defined outside this module; the
    development is parametric in them. *)
Class CoreLib := {
  (** [inventory.Inventory], its constructor and the methods that merge an
      amount, a position or another inventory into [self]. *)
  Inventory : Type;
  Inventory_new : Inventory;
  add_amount : Inventory → Amount → Inventory;
  add_position : Inventory → Position → Inventory;
  add_inventory : Inventory → Inventory → Inventory;
  (** [compare.hash_entry]. *)
  hash_entry : directive → string;
  (** [interpolate.get_balance_amount]. *)
  get_balance_amount : Posting → Amount;
  (** The truth value of an [Amount] instance. *)
  amount_bool : Amount → bool;
  (** [re.compile(pattern, re.IGNORECASE).search], as a predicate on the
      searched string; [None] when the pattern does not compile. *)
  re_search_ignorecase : string → option (string → bool) }.

(** A column: a node without operands, with its [dtype] and [__call__]. *)
Record EvalColumn (A : Type) := mkColumn {
  col_dtype : dtype;
  col_call : A → value }.
Arguments mkColumn {A} _ _.
Arguments col_dtype {A} _.
Arguments col_call {A} _ _.

(** A globally available empty set to fill in for None's. *)
Definition EMPTY_SET : value := VSet ∅.

Section Columns.
Context `{core : CoreLib}.

(** ** Column accessors for entries *)

Definition IdEntryColumn : EvalColumn directive :=
  mkColumn t_str (λ entry, VStr (hash_entry entry)).

Definition TypeEntryColumn : EvalColumn directive :=
  mkColumn t_str (λ entry, VStr (lower (type_name entry))).

Definition FilenameEntryColumn : EvalColumn directive :=
  mkColumn t_str (λ entry, VStr (filename (entry_source entry))).

Definition LineNoEntryColumn : EvalColumn directive :=
  mkColumn t_int (λ entry, VInt (lineno (entry_source entry))).

Definition DateEntryColumn : EvalColumn directive :=
  mkColumn t_date (λ entry, VDate (entry_date entry)).

Definition YearEntryColumn : EvalColumn directive :=
  mkColumn t_int (λ entry, VInt (year (entry_date entry))).

Definition MonthEntryColumn : EvalColumn directive :=
  mkColumn t_int (λ entry, VInt (month (entry_date entry))).

Definition DayEntryColumn : EvalColumn directive :=
  mkColumn t_int (λ entry, VInt (day (entry_date entry))).

Definition FlagEntryColumn : EvalColumn directive :=
  mkColumn t_str (λ entry,
    match entry with
    | ETransaction t => VStr (flag t)
    | EOther _ _ _ => VNone
    end).

Definition PayeeEntryColumn : EvalColumn directive :=
  mkColumn t_str (λ entry,
    match entry with
    | ETransaction t => py_or (opt_str (payee t)) (VStr "")
    | EOther _ _ _ => VNone
    end).

Definition NarrationEntryColumn : EvalColumn directive :=
  mkColumn t_str (λ entry,
    match entry with
    | ETransaction t => py_or (opt_str (narration t)) (VStr "")
    | EOther _ _ _ => VNone
    end).

Definition TagsEntryColumn : EvalColumn directive :=
  mkColumn t_set (λ entry,
    match entry with
    | ETransaction t => py_or (opt_set (tags t)) EMPTY_SET
    | EOther _ _ _ => EMPTY_SET
    end).

Definition LinksEntryColumn : EvalColumn directive :=
  mkColumn t_set (λ entry,
    match entry with
    | ETransaction t => py_or (opt_set (links t)) EMPTY_SET
    | EOther _ _ _ => EMPTY_SET
    end).

(** ** Column accessors for postings *)

Definition IdColumn : EvalColumn Posting :=
  mkColumn t_str (λ posting, VStr (hash_entry (ETransaction (entry posting)))).

Definition TypeColumn : EvalColumn Posting :=
  mkColumn t_str
    (λ posting, VStr (lower (type_name (ETransaction (entry posting))))).

Definition FilenameColumn : EvalColumn Posting :=
  mkColumn t_str (λ posting, VStr (filename (source (entry posting)))).

Definition LineNoColumn : EvalColumn Posting :=
  mkColumn t_int (λ posting, VInt (lineno (source (entry posting)))).

Definition DateColumn : EvalColumn Posting :=
  mkColumn t_date (λ posting, VDate (txn_date (entry posting))).

Definition YearColumn : EvalColumn Posting :=
  mkColumn t_int (λ posting, VInt (year (txn_date (entry posting)))).

Definition MonthColumn : EvalColumn Posting :=
  mkColumn t_int (λ posting, VInt (month (txn_date (entry posting)))).

Definition DayColumn : EvalColumn Posting :=
  mkColumn t_int (λ posting, VInt (day (txn_date (entry posting)))).

Definition FlagColumn : EvalColumn Posting :=
  mkColumn t_str (λ posting, VStr (flag (entry posting))).

Definition PayeeColumn : EvalColumn Posting :=
  mkColumn t_str (λ posting, py_or (opt_str (payee (entry posting))) (VStr "")).

Definition NarrationColumn : EvalColumn Posting :=
  mkColumn t_str (λ posting, opt_str (narration (entry posting))).

Definition TagsColumn : EvalColumn Posting :=
  mkColumn t_set (λ posting, py_or (opt_set (tags (entry posting))) EMPTY_SET).

Definition LinksColumn : EvalColumn Posting :=
  mkColumn t_set (λ posting, py_or (opt_set (links (entry posting))) EMPTY_SET).

Definition PostingFlagColumn : EvalColumn Posting :=
  mkColumn t_str (λ posting, opt_str (posting_flag posting)).

Definition AccountColumn : EvalColumn Posting :=
  mkColumn t_str (λ posting, VStr (account posting)).

Definition NumberColumn : EvalColumn Posting :=
  mkColumn t_Decimal (λ posting, VDecimal (position_number (position posting))).

Definition CurrencyColumn : EvalColumn Posting :=
  mkColumn t_str
    (λ posting, VStr (lot_currency (position_lot (position posting)))).

(** In [x.number if x else ZERO] the test on [None] is false, and an
    [Amount] has the truth value that its class gives it. *)
Definition CostNumberColumn : EvalColumn Posting :=
  mkColumn t_Decimal (λ posting,
    match lot_cost (position_lot (position posting)) with
    | Some cost =>
        if amount_bool cost then VDecimal (amount_number cost) else VDecimal ZERO
    | None => VDecimal ZERO
    end).

Definition CostCurrencyColumn : EvalColumn Posting :=
  mkColumn t_str (λ posting,
    match lot_cost (position_lot (position posting)) with
    | Some cost =>
        if amount_bool cost then VStr (amount_currency cost) else VStr ""
    | None => VStr ""
    end).

Definition ChangeColumn : EvalColumn Posting :=
  mkColumn t_Position (λ posting, VPosition (position posting)).

Definition PriceColumn : EvalColumn Posting :=
  mkColumn t_Amount (λ posting, opt_amount (price posting)).

Definition WeightColumn : EvalColumn Posting :=
  mkColumn t_Amount (λ posting, VAmount (get_balance_amount posting)).

End Columns.

(** ** Nodes, function classes and their constructors *)

(** A compiled operand: its static [dtype] and its [__call__] on a row.
    Columns and the non-aggregating functions keep no state. *)
Record EvalNode := mkNode {
  node_dtype : dtype;
  node_call : context → result value }.

(** The classes of functions that this module defines. *)
Inductive func_class :=
  | Length | Str | Year | Month | Day | Weekday | Parent
  | UnitsPosition | CostPosition | MatchAccount
  | Count | Sum | SumAmount | SumPosition | SumInventory
  | First | Last | Min | Max.

#[global] Instance func_class_eq_dec : EqDecision func_class.
Proof. solve_decision. Defined.

(** An instance of a function class. [handle] is set by [allocate]; until
    then the attribute does not exist. *)
Record EvalFunction := mkFunction {
  cls : func_class;
  operands : list EvalNode;
  fn_dtype : dtype;
  handle : option nat }.

(** [operands[0].dtype]. *)
Definition first_operand_dtype (operands : list EvalNode) : result dtype :=
  match operands with
  | op :: _ => Ok (node_dtype op)
  | [] => Raise IndexError
  end.

(** The data type that each [__init__] passes to [super().__init__]. *)
Definition init_dtype (c : func_class) (operands : list EvalNode) : result dtype :=
  match c with
  | Length | Year | Month | Day | Count => Ok t_int
  | Str | Weekday | Parent => Ok t_str
  | UnitsPosition | CostPosition => Ok t_Amount
  | MatchAccount => Ok t_bool
  | SumAmount | SumPosition | SumInventory => Ok t_Inventory
  | Sum | First | Last | Min | Max => first_operand_dtype operands
  end.

(** What [__intypes__] accepts at one operand position: [object], or one of
    the classes of a tuple. [float] and [list], which two of the tuples of
    the source name, are the [dtype] of no node of this module. *)
Inductive intype :=
  | any_object
  | one_of (accepted : list dtype).

(** [__intypes__] of each class. *)
Definition intypes (c : func_class) : list intype :=
  match c with
  | Length => [one_of [t_set; t_str]]
  | Str | Count | First | Last | Min | Max => [any_object]
  | Year | Month | Day | Weekday => [one_of [t_date]]
  | Parent | MatchAccount => [one_of [t_str]]
  | UnitsPosition | CostPosition | SumPosition => [one_of [t_Position]]
  | Sum => [one_of [t_int; t_Decimal]]
  | SumAmount => [one_of [t_Amount]]
  | SumInventory => [one_of [t_Inventory]]
  end.

(** [issubclass(t, a)] on the classes of [dtype]: [bool] is a subclass of
    [int], and there is no other such pair. *)
Definition issubclass (t a : dtype) : bool :=
  bool_decide (t = a) || (bool_decide (t = t_bool) && bool_decide (a = t_int)).

Definition accepts (a : intype) (t : dtype) : bool :=
  match a with
  | any_object => true
  | one_of accepted => existsb (issubclass t) accepted
  end.

(** Modelled from the spec: the construction-time type checking of
    [EvalFunction.__init__] of query_compile, which is not part of this
    module: the number of operands is the number of positions of
    [__intypes__], and at each position the static type of the operand is
    among the accepted types; a mismatch is a compilation error. *)
Definition check_intypes (c : func_class) (operands : list EvalNode) : result unit :=
  if bool_decide (length operands = length (intypes c)) then
    if forallb (λ '(operand, a), accepts a (node_dtype operand))
               (zip operands (intypes c))
    then Ok tt
    else Raise CompilationError
  else Raise CompilationError.

(** [c(operands)]: the instance that the constructor of class [c] builds.
    The data type is computed for the call of [super().__init__], which
    then checks the operands. *)
Definition new (c : func_class) (operands : list EvalNode) : result EvalFunction :=
  rbind (init_dtype c operands) (λ t,
    rbind (check_intypes c operands) (λ _,
      Ok (mkFunction c operands t None))).

Definition is_aggregator (c : func_class) : bool :=
  match c with
  | Count | Sum | SumAmount | SumPosition | SumInventory
  | First | Last | Min | Max => true
  | _ => false
  end.

(** Modelled from the spec: [EvalFunction.eval_args] of query_compile, which
    is not part of this module: all operands are evaluated eagerly and in
    left-to-right operand order against the current row. *)
Definition eval_args (self : EvalFunction) (ctx : context) : result (list value) :=
  rmap (λ operand, node_call operand ctx) (operands self).

(** [args[0]]. *)
Definition item0 (args : list value) : result value :=
  match args with
  | v :: _ => Ok v
  | [] => Raise IndexError
  end.

(** ** Function registries

    A key is a bare name, [(name, None)] here, or a tuple of a name and a
    data type, [(name, Some t)] here. *)

Definition SIMPLE_FUNCTIONS : gmap (string * option dtype) func_class :=
  list_to_map [
    (("str", None), Str);
    (("length", None), Length);
    (("parent", None), Parent);
    (("units", Some t_Position), UnitsPosition);
    (("cost", Some t_Position), CostPosition);
    (("year", None), Year);
    (("month", None), Month);
    (("day", None), Day);
    (("weekday", None), Weekday) ].

Definition AGGREGATOR_FUNCTIONS : gmap (string * option dtype) func_class :=
  list_to_map [
    (("sum", Some t_Amount), SumAmount);
    (("sum", Some t_Position), SumPosition);
    (("sum", Some t_Inventory), SumInventory);
    (("sum", None), Sum);
    (("count", None), Count);
    (("first", None), First);
    (("last", None), Last);
    (("min", None), Min);
    (("max", None), Max) ].

(** Functions defined only on entries. *)
Definition ENTRY_FUNCTIONS : gmap (string * option dtype) func_class :=
  list_to_map [ (("has_account", None), MatchAccount) ].

(** [d.update(other)]: the bindings of [other] replace those of [d]. *)
Definition dict_update {K V} `{Countable K} (d other : gmap K V) : gmap K V :=
  other ∪ d.

(** ** Compilation environments *)

Record CompilationEnvironment (A : Type) := mkEnvironment {
  context_name : string;
  columns : gmap string (EvalColumn A);
  functions : gmap (string * option dtype) func_class }.
Arguments mkEnvironment {A} _ _ _.
Arguments context_name {A} _.
Arguments columns {A} _.
Arguments functions {A} _.

Section Environments.
Context `{core : CoreLib}.

Definition FilterEntriesEnvironment : CompilationEnvironment directive :=
  mkEnvironment "FROM clause"
    (list_to_map [
      ("id", IdEntryColumn);
      ("type", TypeEntryColumn);
      ("filename", FilenameEntryColumn);
      ("lineno", LineNoEntryColumn);
      ("date", DateEntryColumn);
      ("year", YearEntryColumn);
      ("month", MonthEntryColumn);
      ("day", DayEntryColumn);
      ("flag", FlagEntryColumn);
      ("payee", PayeeEntryColumn);
      ("narration", NarrationEntryColumn);
      ("tags", TagsEntryColumn);
      ("links", LinksEntryColumn) ])
    (dict_update SIMPLE_FUNCTIONS ENTRY_FUNCTIONS).

Definition FilterPostingsEnvironment : CompilationEnvironment Posting :=
  mkEnvironment "WHERE clause"
    (list_to_map [
      ("id", IdColumn);
      ("type", TypeColumn);
      ("filename", FilenameColumn);
      ("lineno", LineNoColumn);
      ("date", DateColumn);
      ("year", YearColumn);
      ("month", MonthColumn);
      ("day", DayColumn);
      ("flag", FlagColumn);
      ("payee", PayeeColumn);
      ("narration", NarrationColumn);
      ("tags", TagsColumn);
      ("links", LinksColumn);
      ("posting_flag", PostingFlagColumn);
      ("account", AccountColumn);
      ("number", NumberColumn);
      ("currency", CurrencyColumn);
      ("cost_number", CostNumberColumn);
      ("cost_currency", CostCurrencyColumn);
      ("change", ChangeColumn);
      ("price", PriceColumn);
      ("weight", WeightColumn) ])
    SIMPLE_FUNCTIONS.

Definition TargetsEnvironment : CompilationEnvironment Posting :=
  mkEnvironment "targets/column"
    (columns FilterPostingsEnvironment)
    (dict_update (functions FilterPostingsEnvironment) AGGREGATOR_FUNCTIONS).

(** The list of columns that a wildcard will expand into. *)
Definition wildcard_columns : list string :=
  ["date"; "flag"; "payee"; "narration"; "change"].

End Environments.

(** Modelled from the spec: [CompilationEnvironment.get_function] of
    query_compile, which is not part of this module: attempt lookup by the
    compound key (name, type of the first operand); if absent, fall back to
    lookup by name alone; resolution fails if neither is registered. *)
Definition get_function (functions : gmap (string * option dtype) func_class)
    (name : string) (operands : list EvalNode) : result func_class :=
  let compound :=
    match operands with
    | op :: _ => functions !! (name, Some (node_dtype op))
    | [] => None
    end in
  match compound with
  | Some c => Ok c
  | None =>
      match functions !! (name, None) with
      | Some c => Ok c
      | None => Raise CompilationError
      end
  end.

(** ** The store and the aggregators *)

(** Modelled from the spec: the allocator of the executor, which is not part
    of this module: [allocate()] returns a handle that is monotonically
    unique per compiled plan. *)
Record Allocator := mkAllocator { next_handle : nat }.

Definition Allocator_allocate (a : Allocator) : nat * Allocator :=
  (next_handle a, mkAllocator (S (next_handle a))).

(** [self.handle = allocator.allocate()], a method of the aggregators. *)
Definition allocate (self : EvalFunction) (allocator : Allocator)
    : result (EvalFunction * Allocator) :=
  if is_aggregator (cls self) then
    let '(h, allocator') := Allocator_allocate allocator in
    Ok (mkFunction (cls self) (operands self) (fn_dtype self) (Some h), allocator')
  else Raise AttributeError.

Section Aggregators.
Context `{core : CoreLib}.

(** The mutable state that the aggregators work on. The store is supplied
    by the executor, which is not part of this module, and gives read and
    write access keyed by handle, [store[handle]]: it is a finite map from
    handles to values, and reading a handle that it does not hold raises.
    The heap holds the [Inventory] objects that slots refer to. *)
Record state := mkState {
  store : gmap nat value;
  heap : gmap loc Inventory }.

(** Computations that read and write the state and may raise. *)
Definition M (A : Type) : Type := state → result A * state.

Definition ret {A} (a : A) : M A := λ s, (Ok a, s).

Definition raise {A} (e : pyerror) : M A := λ s, (Raise e, s).

Definition lift {A} (r : result A) : M A := λ s, (r, s).

Definition bind {A B} (m : M A) (k : A → M B) : M B :=
  λ s, match m s with
       | (Ok a, s') => k a s'
       | (Raise e, s') => (Raise e, s')
       end.

Notation "'let*' x ':=' m 'in' k" := (bind m (λ x, k))
  (at level 10, x pattern, m at level 100, k at level 200).

(** [self.handle]. *)
Definition self_handle (self : EvalFunction) : M nat :=
  match handle self with
  | Some h => ret h
  | None => raise AttributeError
  end.

(** [store[h]]. *)
Definition store_get (h : nat) : M value :=
  λ s, match store s !! h with
       | Some v => (Ok v, s)
       | None => (Raise KeyError, s)
       end.

(** [store[h] = v]. *)
Definition store_set (h : nat) (v : value) : M unit :=
  λ s, (Ok tt, mkState (<[h := v]> (store s)) (heap s)).

(** [inventory.Inventory()]: a new object. *)
Definition heap_new (i : Inventory) : M loc :=
  λ s, let l := fresh (dom (heap s)) in
       (Ok l, mkState (store s) (<[l := i]> (heap s))).

(** The object at a location. No reference of a Python program dangles; on
    a state where one does, the model raises. *)
Definition heap_get (l : loc) : M Inventory :=
  λ s, match heap s !! l with
       | Some i => (Ok i, s)
       | None => (Raise KeyError, s)
       end.

Definition heap_set (l : loc) (i : Inventory) : M unit :=
  λ s, (Ok tt, mkState (store s) (<[l := i]> (heap s))).

(** [self.dtype()]: the value that the class builds without arguments.
    [datetime.date], [Amount] and [Position] take mandatory arguments. *)
Definition dtype_call (t : dtype) : M value :=
  match t with
  | t_str => ret (VStr "")
  | t_int => ret (VInt 0)
  | t_bool => ret (VBool false)
  | t_set => ret (VSet ∅)
  | t_Decimal => ret (VDecimal ZERO)
  | t_Inventory => let* l := heap_new Inventory_new in ret (VInventory l)
  | t_date | t_Amount | t_Position => raise TypeError
  end.

(** [self.eval_args(posting)[0]]. *)
Definition eval_arg0 (self : EvalFunction) (posting : context) : M value :=
  lift (rbind (eval_args self posting) item0).

(** [store[self.handle].add_...(value)] of the [SumBase] classes: the
    object in the slot is changed in place, the slot itself is not
    assigned. An object of another class has no such method, and the method
    reads attributes that a [value] of another class does not have. *)
Definition inventory_method (self : EvalFunction)
    (add : Inventory → M Inventory) : M unit :=
  let* h := self_handle self in
  let* slot := store_get h in
  match slot with
  | VInventory l =>
      let* inv := heap_get l in
      let* inv' := add inv in
      heap_set l inv'
  | _ => raise AttributeError
  end.

Definition initialize (self : EvalFunction) : M unit :=
  match cls self with
  | Count =>
      let* h := self_handle self in
      store_set h (VInt 0)
  | Sum | Min | Max =>
      let* v := dtype_call (fn_dtype self) in
      let* h := self_handle self in
      store_set h v
  | SumAmount | SumPosition | SumInventory =>
      let* l := heap_new Inventory_new in
      let* h := self_handle self in
      store_set h (VInventory l)
  | First | Last =>
      let* h := self_handle self in
      store_set h VNone
  | _ => raise AttributeError
  end.

Definition update (self : EvalFunction) (posting : context) : M unit :=
  match cls self with
  | Count =>
      let* h := self_handle self in
      let* slot := store_get h in
      let* v := lift (py_add slot (VInt 1)) in
      store_set h v
  | Sum =>
      let* value := eval_arg0 self posting in
      let* h := self_handle self in
      let* slot := store_get h in
      let* v := lift (py_add slot value) in
      store_set h v
  | SumAmount =>
      let* value := eval_arg0 self posting in
      inventory_method self (λ inv,
        match value with
        | VAmount a => ret (add_amount inv a)
        | _ => raise AttributeError
        end)
  | SumPosition =>
      let* value := eval_arg0 self posting in
      inventory_method self (λ inv,
        match value with
        | VPosition p => ret (add_position inv p)
        | _ => raise AttributeError
        end)
  | SumInventory =>
      let* value := eval_arg0 self posting in
      inventory_method self (λ inv,
        match value with
        | VInventory l' =>
            let* other := heap_get l' in
            ret (add_inventory inv other)
        | _ => raise AttributeError
        end)
  | First =>
      let* h := self_handle self in
      let* slot := store_get h in
      match slot with
      | VNone =>
          let* value := eval_arg0 self posting in
          store_set h value
      | _ => ret tt
      end
  | Last =>
      let* value := eval_arg0 self posting in
      let* h := self_handle self in
      store_set h value
  | Min =>
      let* value := eval_arg0 self posting in
      let* h := self_handle self in
      let* slot := store_get h in
      let* less := lift (py_lt value slot) in
      if less then store_set h value else ret tt
  | Max =>
      let* value := eval_arg0 self posting in
      let* h := self_handle self in
      let* slot := store_get h in
      let* greater := lift (py_gt value slot) in
      if greater then store_set h value else ret tt
  | _ => raise AttributeError
  end.

Definition finalize (self : EvalFunction) : M value :=
  if is_aggregator (cls self) then
    let* h := self_handle self in
    store_get h
  else raise AttributeError.

(** Modelled from the spec: the lifecycle that the executor, which is not
    part of this module, drives for one group: initialize at group start,
    update per row in arrival order, finalize at group end. *)
Fixpoint update_rows (self : EvalFunction) (rows : list context) : M unit :=
  match rows with
  | [] => ret tt
  | row :: rows' =>
      let* _ := update self row in
      update_rows self rows'
  end.

Definition run_group (self : EvalFunction) (rows : list context) : M value :=
  let* _ := initialize self in
  let* _ := update_rows self rows in
  finalize self.

(** ** [has_account] *)

(** [MatchAccount.__call__]. A pattern that is not a string is a
    [TypeError] of [re.compile]. *)
Definition MatchAccount_call (self : EvalFunction) (entry : context) : result value :=
  match entry with
  | CtxEntry (ETransaction t) =>
      rbind (rbind (eval_args self entry) item0) (λ pattern,
        match pattern with
        | VStr p =>
            match re_search_ignorecase p with
            | Some search =>
                Ok (VBool (existsb (λ posting, search (pf_account posting)) (postings t)))
            | None => Raise ReError
            end
        | _ => Raise TypeError
        end)
  | _ => Ok (VBool false)
  end.

End Aggregators.

Notation "'let*' x ':=' m 'in' k" := (bind m (λ x, k))
  (at level 10, x pattern, m at level 100, k at level 200).

(** A posting column as an operand of a function of the postings and
    targets environments, which hand it posting rows. On an entry row the
    model raises. *)
Definition column_node (c : EvalColumn Posting) : EvalNode :=
  mkNode (col_dtype c) (λ ctx,
    match ctx with
    | CtxPosting p => Ok (col_call c p)
    | CtxEntry _ => Raise AttributeError
    end).

(** An entry column as an operand of a function of the entries environment. *)
Definition entry_column_node (c : EvalColumn directive) : EvalNode :=
  mkNode (col_dtype c) (λ ctx,
    match ctx with
    | CtxEntry e => Ok (col_call c e)
    | CtxPosting _ => Raise AttributeError
    end).

(** A string literal as an operand. *)
Definition string_constant (s : string) : EvalNode :=
  mkNode t_str (λ _, Ok (VStr s)).

(** ** Non-aggregating functions *)

(** [len(v)]: the number of characters of a string, of elements of a set.
    [None], the numbers and the dates have no length; the ledger classes
    are taken to have none either. *)
Definition py_len (v : value) : result value :=
  match v with
  | VStr s => Ok (VInt (Z.of_nat (String.length s)))
  | VSet s => Ok (VInt (Z.of_nat (size s)))
  | _ => Raise TypeError
  end.

(** [v.year], [v.month] and [v.day]: attributes of a date. *)
Definition date_attr (attr : date → Z) (v : value) : result value :=
  match v with
  | VDate d => Ok (VInt (attr d))
  | _ => Raise AttributeError
  end.

(** [Length.__call__]. *)
Definition Length_call (self : EvalFunction) (posting : context) : result value :=
  rbind (rbind (eval_args self posting) item0) py_len.

(** [Year.__call__], [Month.__call__] and [Day.__call__]. *)
Definition Year_call (self : EvalFunction) (posting : context) : result value :=
  rbind (rbind (eval_args self posting) item0) (date_attr year).

Definition Month_call (self : EvalFunction) (posting : context) : result value :=
  rbind (rbind (eval_args self posting) item0) (date_attr month).

Definition Day_call (self : EvalFunction) (posting : context) : result value :=
  rbind (rbind (eval_args self posting) item0) (date_attr day).

(** * experiments/split-reports/split_report.py

    Strings are sequences of ASCII characters. *)

(** [s.replace(old, new)] for single characters. *)
Fixpoint replace_char (old new : ascii) (s : string) : string :=
  match s with
  | EmptyString => EmptyString
  | String c s' =>
      String (if Ascii.eqb c old then new else c) (replace_char old new s')
  end.

(** [filter(None, items)]: the items that are true; [None] and the empty
    string are false. *)
Fixpoint filter_None (items : list (option string)) : list string :=
  match items with
  | [] => []
  | Some (String c s) :: items' => String c s :: filter_None items'
  | _ :: items' => filter_None items'
  end.

(** The base of all file names of [save_query]:
    ['-'.join(filter(None, [title.replace(' ', '-'), participant]))]. *)
Definition filebase (title : string) (participant : option string) : string :=
  String.concat "-" (filter_None [Some (replace_char " " "-" title); participant]).

(** ** The participants

    The configuration of a plugin is any text that the ledger gives: a
    Python [str], here the list of the code points of its characters. *)
Definition text : Type := list N.

(** The text of a string of ASCII characters. *)
Fixpoint text_of (s : string) : text :=
  match s with
  | EmptyString => []
  | String c s' => N_of_ascii c :: text_of s'
  end.

(** [c.isspace()], which decides where [str.split()] splits: the controls
    9 to 13 and 28 to 31, the space, and the separators that Unicode has
    beyond ASCII. *)
Definition isspace (c : N) : bool :=
  ((9 <=? c) && (c <=? 13) || (28 <=? c) && (c <=? 32)
   || (c =? 133) || (c =? 160) || (c =? 5760)
   || (8192 <=? c) && (c <=? 8202)
   || (c =? 8232) || (c =? 8233) || (c =? 8239) || (c =? 8287)
   || (c =? 12288))%N.

(** [s.split()]: the maximal runs of characters that are not whitespace,
    in order. [word] is the run read so far. *)
Fixpoint split_from (word s : text) : list text :=
  match s with
  | [] => match word with [] => [] | _ => [word] end
  | c :: s' =>
      if isspace c then
        match word with
        | [] => split_from [] s'
        | _ => word :: split_from [] s'
        end
      else split_from (word ++ [c]) s'
  end.

Definition split (s : text) : list text := split_from [] s.

(** [get_participants], on the value of [options_map["plugin"]]: a list of
    pairs of a plugin name and its configuration, which is a text or
    [None]. [dict(pairs)] keeps the last pair of a name. *)
Definition get_participants (plugin : list (string * option text))
    : result (list text) :=
  let plugin_options : gmap string (option text) :=
    list_to_map (reverse plugin) in
  match plugin_options !! "beancount.plugins.split_expenses" with
  | Some (Some config) => Ok (split config)
  | Some None => Raise AttributeError
  | None => Raise KeyError
  end.

(** ** A small instance of the imported library

    The theorems below hold for every instance of [CoreLib]. To run the
    definitions on concrete rows, this instance collects positions in a
    list, identifies an entry by its source, and searches a pattern as a
    literal substring, letter case ignored. *)

Fixpoint contains (needle hay : string) : bool :=
  String.prefix needle hay ||
  match hay with
  | EmptyString => false
  | String _ hay' => contains needle hay'
  end.

Definition sample_core : CoreLib := {|
  Inventory := list Position;
  Inventory_new := [];
  add_amount inv a :=
    mkPosition (mkLot (amount_currency a) None None) (amount_number a) :: inv;
  add_position inv p := p :: inv;
  add_inventory inv other := other ++ inv;
  hash_entry e := filename (entry_source e);
  get_balance_amount p :=
    mkAmount (position_number (position p))
             (lot_currency (position_lot (position p)));
  amount_bool a := negb (coefficient (amount_number a) =? 0)%Z;
  re_search_ignorecase pattern := Some (λ s, contains (lower pattern) (lower s))
|}.

(** Sample rows: a transaction with three postings of 10, 20 and 5 units,
    the second one with a price, and variants of it. *)
Definition sample_fields (acct : string) (n : Z) (pr : option Amount) : PostingFields :=
  mkPostingFields acct (mkPosition (mkLot "USD" None None) (mkDecimal n 0)) pr None.

Definition sample_legs : list PostingFields :=
  [ sample_fields "Expenses:Food" 10 None;
    sample_fields "Expenses:Rent" 20 (Some (mkAmount (mkDecimal 13 (-1)) "CAD"));
    sample_fields "Assets:Cash" 5 None ].

Definition sample_txn : Transaction :=
  mkTransaction (mkSource "ledger.beancount" 7) (mkDate 2014 5 17) "*"
    (Some "Cafe") (Some "Lunch") None None sample_legs.

(** A transaction that carries neither payee nor narration. *)
Definition bare_txn : Transaction :=
  mkTransaction (mkSource "ledger.beancount" 12) (mkDate 2014 5 18) "*"
    None None None None sample_legs.

Definition sample_rows : list context :=
  map (λ f, CtxPosting (mkPosting sample_txn f)) sample_legs.

Definition bare_posting : Posting :=
  mkPosting bare_txn (sample_fields "Expenses:Food" 10 None).

Definition sample_open : directive :=
  EOther "Open" (mkSource "ledger.beancount" 1) (mkDate 2014 1 1).

Definition empty_state `{core : CoreLib} : state := mkState ∅ ∅.

(** Rows of a transaction whose postings are all of negative amounts. *)
Definition negative_rows : list context :=
  map (λ n, CtxPosting (mkPosting sample_txn (sample_fields "Assets:Cash" n None)))
      [(-10)%Z; (-20)%Z; (-5)%Z].

(** Rows whose numbers differ by more digits than the context keeps:
    1E+30, 1 and -1E+30, and the same rows in another order. *)
Definition rows_of_numbers (numbers : list Decimal) : list context :=
  map (λ d, CtxPosting (mkPosting sample_txn
              (mkPostingFields "Assets:Cash"
                 (mkPosition (mkLot "USD" None None) d) None None)))
      numbers.

Definition large_rows : list context :=
  rows_of_numbers [mkDecimal 1 30; mkDecimal 1 0; mkDecimal (-1) 30].

Definition large_rows_reordered : list context :=
  rows_of_numbers [mkDecimal 1 30; mkDecimal (-1) 30; mkDecimal 1 0].

(** A boolean literal as an operand. *)
Definition true_constant : EvalNode := mkNode t_bool (λ _, Ok (VBool true)).

(** An operand that cannot be evaluated. *)
Definition raising_node : EvalNode := mkNode t_str (λ _, Raise TypeError).

(** A plugin configuration as the loader hands it over. *)
Definition sample_plugin : list (string * option text) :=
  [ ("beancount.plugins.auto_accounts", None);
    ("beancount.plugins.split_expenses",
     Some (text_of "Martin  Caroline Sheila")) ].

(** ** Vocabulary of the properties *)

(** The comparison that decides whether an update replaces the slot. *)
Definition replaces (c : func_class) (value slot : value) : result bool :=
  match c with
  | Max => py_gt value slot
  | _ => py_lt value slot
  end.


(** The numeric types whose values the properties order and add: [int],
    of which a [bool] is an instance, and [Decimal]. *)
Definition numeric (t : dtype) : Prop := t = t_int ∨ t = t_Decimal.

(** The slot after folding the values [vs] into it with [+=]. *)
Definition add_all (slot : value) (vs : list value) : result value :=
  fold_left (λ acc v, rbind acc (λ a, py_add a v)) vs (Ok slot).

(** The numbers behind the values of a numeric type. *)
Definition int_of (v : value) : Z := default 0%Z (as_int v).

Definition Decimal_of (v : value) : Decimal :=
  match v with VDecimal d => d | _ => ZERO end.

(** The sum of the values of a group in the words of the specification:
    numeric addition of all of them, starting from the zero of the type. *)
Definition sum_of_values (t : dtype) (vs : list value) : value :=
  match t with
  | t_Decimal => VDecimal (fold_right dec_exact_add ZERO (map Decimal_of vs))
  | _ => VInt (fold_right Z.add 0%Z (map int_of vs))
  end.

(** The size of a value counted in units of [10 ^ E]. *)
Definition magnitude (E : Z) (v : value) : Z :=
  Z.abs (dec_align (Decimal_of v) E).

(** The values are multiples of [10 ^ E], and their sizes add up to less
    than [prec] digits of that unit: no sum of some of them, written with
    an exponent between [E] and 0, needs more digits than the context
    keeps. *)
Definition fits_precision (E : Z) (vs : list value) : Prop :=
  (Etiny ≤ E ≤ 0)%Z
  ∧ Forall (λ v, (E ≤ exponent (Decimal_of v))%Z) vs
  ∧ (fold_right Z.add 0 (map (magnitude E) vs) < 10 ^ prec)%Z.

(** The first value that is not [None], and [None] when there is none. *)
Fixpoint first_not_None (vs : list value) : value :=
  match vs with
  | [] => VNone
  | VNone :: vs' => first_not_None vs'
  | v :: _ => v
  end.

(** The optional fields of an entry; a directive that is not a transaction
    has none of them. *)
Definition entry_payee (e : directive) : option string :=
  match e with ETransaction t => payee t | EOther _ _ _ => None end.

Definition entry_narration (e : directive) : option string :=
  match e with ETransaction t => narration t | EOther _ _ _ => None end.

Definition entry_tags (e : directive) : option (gset string) :=
  match e with ETransaction t => tags t | EOther _ _ _ => None end.

Definition entry_links (e : directive) : option (gset string) :=
  match e with ETransaction t => links t | EOther _ _ _ => None end.

(** Every character of the string satisfies the test. *)
Fixpoint all_chars (test : ascii → bool) (s : string) : bool :=
  match s with
  | EmptyString => true
  | String c s' => test c && all_chars test s'
  end.

(** A word: a text that is not empty and holds no whitespace. *)
Definition is_word (w : text) : Prop :=
  w ≠ [] ∧ forallb (λ c, negb (isspace c)) w = true.

(** [sep.join(ws)]. *)
Fixpoint join (sep : text) (ws : list text) : text :=
  match ws with
  | [] => []
  | [w] => w
  | w :: ws' => w ++ sep ++ join sep ws'
  end.

(** The aggregators whose slot holds a plain value, not an [Inventory]. *)
Definition plain_aggregator (self : EvalFunction) : Prop :=
  cls self ∈ [Count; Sum; First; Last; Min; Max] ∧ fn_dtype self ≠ t_Inventory.

Section Vocabulary.
Context `{core : CoreLib}.

(** The two states hold the same value, or none, in slot [h]. *)
Definition slot_equiv (h : nat) (s s' : state) : Prop :=
  store s !! h = store s' !! h.

(** The computation reads nothing of the state but slot [h]: on states
    that agree on the slot it has the same outcome and leaves states that
    agree on the slot. *)
Definition slot_local {A} (h : nat) (m : M A) : Prop :=
  ∀ s s', slot_equiv h s s' →
    (m s).1 = (m s').1 ∧ slot_equiv h (m s).2 (m s').2.

(** The computation leaves the store as it is. *)
Definition same_store {A} (m : M A) : Prop := ∀ s, store (m s).2 = store s.

(** The state whose slot [h] holds [v]. *)
Definition with_slot (st : gmap nat value) (hp : gmap loc Inventory)
    (h : nat) (v : value) : state :=
  mkState (<[h := v]> st) hp.

(** The computation leaves slot [k] of the store as it is. *)
Definition preserves_slot {A} (k : nat) (m : M A) : Prop :=
  ∀ s, store (m s).2 !! k = store s !! k.

(** The computation leaves the state as it is. *)
Definition read_only {A} (m : M A) : Prop := ∀ s, (m s).2 = s.

(** The computation leaves the heap as it is. *)
Definition same_heap {A} (m : M A) : Prop := ∀ s, heap (m s).2 = heap s.

End Vocabulary.

(** * Properties *)

(** ** Arithmetic and order of [Decimal] *)

Lemma dec_align_shift (d : Decimal) (e e' : Z) :
  (e' ≤ e)%Z → (e ≤ exponent d)%Z →
  dec_align d e' = (dec_align d e * 10 ^ (e - e'))%Z.
Proof.
  intros He' He. unfold dec_align.
  rewrite <- Z.mul_assoc, <- Z.pow_add_r by lia.
  do 2 f_equal. lia.
Qed.

Lemma dec_align_mk (x m e : Z) :
  dec_align (mkDecimal x m) e = (x * 10 ^ (m - e))%Z.
Proof. reflexivity. Qed.

Lemma dec_exact_add_comm (a b : Decimal) :
  dec_exact_add a b = dec_exact_add b a.
Proof.
  unfold dec_exact_add. rewrite (Z.min_comm (exponent b)). f_equal. lia.
Qed.

Lemma dec_exact_add_assoc (a b c : Decimal) :
  dec_exact_add (dec_exact_add a b) c = dec_exact_add a (dec_exact_add b c).
Proof.
  unfold dec_exact_add; cbn [exponent coefficient].
  set (ab := Z.min (exponent a) (exponent b)).
  set (bc := Z.min (exponent b) (exponent c)).
  assert (He : Z.min ab (exponent c) = Z.min (exponent a) bc)
    by (subst ab bc; lia).
  rewrite He. set (e := Z.min (exponent a) bc).
  f_equal.
  assert (Hab : (e ≤ ab)%Z) by (subst e ab bc; lia).
  assert (Hbc : (e ≤ bc)%Z) by (subst e ab bc; lia).
  rewrite !dec_align_mk, !Z.mul_add_distr_r.
  rewrite <- (dec_align_shift a ab e) by (subst ab; lia).
  rewrite <- (dec_align_shift b ab e) by (subst ab; lia).
  rewrite <- (dec_align_shift b bc e) by (subst bc; lia).
  rewrite <- (dec_align_shift c bc e) by (subst bc; lia).
  lia.
Qed.

Lemma dec_exact_add_align (a b : Decimal) (E : Z) :
  (E ≤ exponent a)%Z → (E ≤ exponent b)%Z →
  dec_align (dec_exact_add a b) E = (dec_align a E + dec_align b E)%Z.
Proof.
  intros Ha Hb. unfold dec_exact_add.
  set (m := Z.min (exponent a) (exponent b)).
  rewrite dec_align_mk, Z.mul_add_distr_r.
  rewrite <- (dec_align_shift a m E), <- (dec_align_shift b m E)
    by (subst m; lia).
  reflexivity.
Qed.

Lemma abs_coefficient_le_align (d : Decimal) (E : Z) :
  (E ≤ exponent d)%Z → (Z.abs (coefficient d) ≤ Z.abs (dec_align d E))%Z.
Proof.
  intros HE. unfold dec_align. rewrite Z.abs_mul.
  assert (0 < 10 ^ (exponent d - E))%Z by (apply Z.pow_pos_nonneg; lia).
  rewrite (Z.abs_eq (10 ^ _)) by lia. nia.
Qed.

(** The number of digits is the least number of digits that hold [n]. *)
Lemma digits_upto_le (fuel : nat) : ∀ n k,
  (1 ≤ k)%Z → (0 ≤ n < 10 ^ k)%Z → (digits_upto fuel n ≤ k)%Z.
Proof.
  induction fuel as [|fuel IH]; intros n k Hk Hn; cbn [digits_upto]; [done|].
  destruct (Z.ltb_spec n 10) as [Hlt | Hge]; [done|].
  assert (2 ≤ k)%Z as Hk2.
  { destruct (decide (k = 1%Z)) as [-> | Hne]; [|lia].
    change (10 ^ 1)%Z with 10%Z in Hn. lia. }
  assert (digits_upto fuel (n / 10) ≤ k - 1)%Z; [|lia].
  apply IH; [lia|]. split; [apply Z.div_pos; lia|].
  apply Z.div_lt_upper_bound; [lia|].
  replace k with (1 + (k - 1))%Z in Hn by lia.
  rewrite Z.pow_add_r in Hn by lia. change (10 ^ 1)%Z with 10%Z in Hn. lia.
Qed.

Lemma digits_upto_pos (fuel : nat) (n : Z) : (1 ≤ digits_upto fuel n)%Z.
Proof.
  revert n. induction fuel as [|fuel IH]; intros n; cbn [digits_upto]; [lia|].
  destruct (n <? 10)%Z; [lia|]. specialize (IH (n / 10)%Z). lia.
Qed.

Lemma digits_upto_spec (fuel : nat) : ∀ n,
  (0 < n < 2 ^ (Z.of_nat fuel + 1))%Z →
  (10 ^ (digits_upto fuel n - 1) ≤ n < 10 ^ digits_upto fuel n)%Z.
Proof.
  induction fuel as [|fuel IH]; intros n Hn; cbn [digits_upto].
  - change (2 ^ (Z.of_nat 0 + 1))%Z with 2%Z in Hn.
    change (10 ^ (1 - 1))%Z with 1%Z. change (10 ^ 1)%Z with 10%Z. lia.
  - destruct (Z.ltb_spec n 10) as [Hlt | Hge].
    + change (10 ^ (1 - 1))%Z with 1%Z. change (10 ^ 1)%Z with 10%Z. lia.
    + assert (0 < n / 10)%Z as Hpos by (apply Z.div_str_pos; lia).
      assert (n / 10 < 2 ^ (Z.of_nat fuel + 1))%Z as Hup.
      { apply Z.div_lt_upper_bound; [lia|].
        replace (Z.of_nat (S fuel) + 1)%Z with (1 + (Z.of_nat fuel + 1))%Z in Hn
          by lia.
        rewrite Z.pow_add_r in Hn by lia. change (2 ^ 1)%Z with 2%Z in Hn.
        assert (0 < 2 ^ (Z.of_nat fuel + 1))%Z by (apply Z.pow_pos_nonneg; lia).
        lia. }
      specialize (IH (n / 10)%Z (conj Hpos Hup)).
      pose proof (digits_upto_pos fuel (n / 10)) as Hd.
      replace (1 + digits_upto fuel (n / 10) - 1)%Z
        with (1 + (digits_upto fuel (n / 10) - 1))%Z by lia.
      rewrite !Z.pow_add_r by lia. change (10 ^ 1)%Z with 10%Z.
      pose proof (Z.div_mod n 10 ltac:(lia)) as Hdiv.
      pose proof (Z.mod_pos_bound n 10 ltac:(lia)) as Hmod.
      lia.
Qed.

(** [num_digits] is the number of decimal digits. *)
Lemma num_digits_spec (n : Z) :
  (0 < n)%Z → (10 ^ (num_digits n - 1) ≤ n < 10 ^ num_digits n)%Z.
Proof.
  intros Hn. unfold num_digits. apply digits_upto_spec. split; [done|].
  rewrite Z2Nat.id by apply Z.log2_nonneg.
  apply Z.log2_spec in Hn.
  replace (Z.log2 n + 1)%Z with (Z.succ (Z.log2 n)) by lia. lia.
Qed.

Lemma num_digits_le (n k : Z) :
  (1 ≤ k)%Z → (0 ≤ n < 10 ^ k)%Z → (num_digits n ≤ k)%Z.
Proof. intros Hk Hn. by apply digits_upto_le. Qed.

(** A number of at most [prec] digits, whose exponent is in the range of
    the context, is the result as it is. *)
Lemma dec_fix_exact (d : Decimal) :
  (Z.abs (coefficient d) < 10 ^ prec)%Z →
  (Etiny ≤ exponent d ≤ Etop)%Z →
  dec_fix d = Ok d.
Proof.
  intros Hc He. destruct d as [c e]; cbn [coefficient exponent] in *.
  unfold dec_fix; cbn [coefficient exponent].
  unfold Etiny, Etop, Emin, Emax, prec in *.
  destruct (Z.eqb_spec c 0) as [-> | Hne].
  - do 2 f_equal. lia.
  - assert (num_digits (Z.abs c) ≤ 28)%Z as Hd
      by (apply num_digits_le; lia).
    destruct (Z.ltb_spec (999999 - 28 + 1) (num_digits (Z.abs c) + e - 28));
      [lia|].
    destruct (Z.ltb_spec e
                (Z.max (num_digits (Z.abs c) + e - 28) (-999999 - 28 + 1)));
      [lia|reflexivity].
Qed.





(** ** The aggregators on the store *)

Section AggregatorFacts.
Context `{core : CoreLib}.

Lemma store_get_with_slot st hp h v :
  store_get h (with_slot st hp h v) = (Ok v, with_slot st hp h v).
Proof. unfold store_get, with_slot; cbn. by rewrite lookup_insert_eq. Qed.

Lemma store_set_with_slot st hp h v w :
  store_set h w (with_slot st hp h v) = (Ok tt, with_slot st hp h w).
Proof. unfold store_set, with_slot; cbn. by rewrite insert_insert_eq. Qed.

Lemma eval_arg0_single c op dt hd row s :
  eval_arg0 (mkFunction c [op] dt hd) row s = (node_call op row, s).
Proof.
  unfold eval_arg0, lift, eval_args; cbn.
  by destruct (node_call op row).
Qed.

Lemma rmap_cons_inv {A B} (f : A → result B) x xs ys :
  rmap f (x :: xs) = Ok ys →
  ∃ y ys', f x = Ok y ∧ rmap f xs = Ok ys' ∧ ys = y :: ys'.
Proof.
  cbn. destruct (f x) as [y|]; [|done]. cbn.
  destruct (rmap f xs) as [ys'|]; [|done]. cbn.
  intros [= <-]. eauto.
Qed.

(** The constructor on one operand, for a class of one operand position. *)
Lemma new_single c op a t :
  intypes c = [a] → init_dtype c [op] = Ok t →
  new c [op]
  = if accepts a (node_dtype op) then Ok (mkFunction c [op] t None)
    else Raise CompilationError.
Proof.
  intros Ha Ht. unfold new, check_intypes. rewrite Ht, Ha; cbn.
  by destruct (accepts a (node_dtype op)).
Qed.

(** *** Count *)

Lemma Count_update ops dt h st hp n row :
  update (mkFunction Count ops dt (Some h)) row (with_slot st hp h (VInt n))
  = (Ok tt, with_slot st hp h (VInt (n + 1))).
Proof.
  unfold update, bind, self_handle, ret, lift; cbn.
  rewrite store_get_with_slot; cbn.
  apply store_set_with_slot.
Qed.

Lemma Count_update_rows ops dt h st hp rows : ∀ n,
  update_rows (mkFunction Count ops dt (Some h)) rows (with_slot st hp h (VInt n))
  = (Ok tt, with_slot st hp h (VInt (n + Z.of_nat (length rows)))).
Proof.
  induction rows as [|row rows IH]; intros n; cbn [update_rows length].
  - unfold ret. by rewrite Z.add_0_r.
  - unfold bind. rewrite Count_update, IH. do 3 f_equal. lia.
Qed.

(** C5. For the Count aggregator: initialize sets the slot to 0; an update
    on a slot holding n leaves n + 1 there, whatever the row and the
    operands are; and a group of N rows finalizes to N. *)
Theorem Count_finalizes_to_number_of_rows
    (ops : list EvalNode) (dt : dtype) (h : nat)
    (st : gmap nat value) (hp : gmap loc Inventory) (rows : list context) :
  let self := mkFunction Count ops dt (Some h) in
  initialize self (mkState st hp) = (Ok tt, with_slot st hp h (VInt 0))
  ∧ (∀ n row, update self row (with_slot st hp h (VInt n))
              = (Ok tt, with_slot st hp h (VInt (n + 1))))
  ∧ run_group self rows (mkState st hp)
    = (Ok (VInt (Z.of_nat (length rows))),
       with_slot st hp h (VInt (Z.of_nat (length rows)))).
Proof.
  intros self.
  assert (Hinit : initialize self (mkState st hp)
                  = (Ok tt, with_slot st hp h (VInt 0))) by reflexivity.
  split; [exact Hinit|]. split; [intros; apply Count_update|].
  unfold run_group, bind. rewrite Hinit.
  subst self. rewrite Count_update_rows. cbn [Z.add].
  unfold finalize, bind, self_handle, ret; cbn.
  by rewrite store_get_with_slot.
Qed.

(** *** Min and Max *)

Lemma extremum_update c op dt h st hp slot row v b :
  c = Min ∨ c = Max →
  node_call op row = Ok v →
  replaces c v slot = Ok b →
  update (mkFunction c [op] dt (Some h)) row (with_slot st hp h slot)
  = (Ok tt, with_slot st hp h (if b then v else slot)).
Proof.
  intros Hc Hv Hb.
  assert (Hupd : update (mkFunction c [op] dt (Some h)) row (with_slot st hp h slot)
    = (let* value := eval_arg0 (mkFunction c [op] dt (Some h)) row in
       let* h' := self_handle (mkFunction c [op] dt (Some h)) in
       let* slot' := store_get h' in
       let* less := lift (replaces c value slot') in
       if less then store_set h' value else ret tt) (with_slot st hp h slot))
    by (destruct Hc as [-> | ->]; reflexivity).
  rewrite Hupd. unfold bind at 1. rewrite eval_arg0_single, Hv.
  unfold bind at 1. cbn [self_handle handle]. unfold ret at 1.
  unfold bind at 1. rewrite store_get_with_slot.
  unfold bind, lift. rewrite Hb.
  destruct b; [apply store_set_with_slot | reflexivity].
Qed.


Lemma has_dtype_int v :
  has_dtype t_int v = true → ∃ n, as_int v = Some n ∧ ∀ w m,
    as_int w = Some m →
    py_lt v w = Ok (n <? m)%Z ∧ py_lt w v = Ok (m <? n)%Z
    ∧ py_add v w = Ok (VInt (n + m)).
Proof.
  destruct v; try discriminate; intros _; eexists; (split; [reflexivity|]);
    intros [] m; try discriminate; intros [= <-]; done.
Qed.

Lemma has_dtype_Decimal v :
  has_dtype t_Decimal v = true → ∃ d, v = VDecimal d.
Proof. destruct v; try discriminate. eauto. Qed.



(** *** Sum over numbers *)

Lemma add_all_cons slot v vs :
  add_all slot (v :: vs) = rbind (py_add slot v) (λ a, add_all a vs).
Proof.
  unfold add_all; cbn. destruct (py_add slot v) as [a|e]; [done|].
  cbn. induction vs as [|w ws IH]; [done|]. exact IH.
Qed.

Lemma Sum_update_rows op dt h st hp rows : ∀ vs slot r,
  rmap (node_call op) rows = Ok vs →
  add_all slot vs = Ok r →
  update_rows (mkFunction Sum [op] dt (Some h)) rows (with_slot st hp h slot)
  = (Ok tt, with_slot st hp h r).
Proof.
  induction rows as [|row rows IH]; intros vs slot r Hmap Hadd.
  - injection Hmap as <-. by injection Hadd as <-.
  - apply rmap_cons_inv in Hmap as (v & vs' & Hv & Hmap & ->).
    rewrite add_all_cons in Hadd.
    destruct (py_add slot v) as [a|] eqn:Ha; [|done]. cbn in Hadd.
    cbn [update_rows]. unfold bind at 1.
    assert (Hupd : update (mkFunction Sum [op] dt (Some h)) row
                     (with_slot st hp h slot) = (Ok tt, with_slot st hp h a)).
    { unfold update; cbn [cls]. unfold bind at 1. rewrite eval_arg0_single, Hv.
      unfold bind at 1. cbn [self_handle handle]. unfold ret at 1.
      unfold bind at 1. rewrite store_get_with_slot.
      unfold bind, lift. rewrite Ha. apply store_set_with_slot. }
    rewrite Hupd. by apply (IH vs').
Qed.

Lemma add_all_int vs : ∀ n,
  Forall (λ v, has_dtype t_int v = true) vs →
  add_all (VInt n) vs = Ok (VInt (fold_left Z.add (map int_of vs) n)).
Proof.
  induction vs as [|v vs IH]; intros n Hvs; [done|].
  apply Forall_cons in Hvs as [Hv Hvs].
  rewrite add_all_cons.
  destruct (has_dtype_int v Hv) as (m & Hm & _).
  assert (Hadd : py_add (VInt n) v = Ok (VInt (n + m)))
    by (destruct v; try discriminate; injection Hm as <-; reflexivity).
  rewrite Hadd; cbn [rbind map fold_left]. rewrite IH by done.
  assert (int_of v = m) as -> by (unfold int_of; by rewrite Hm).
  reflexivity.
Qed.

(** Within the precision of the context the left fold of the aggregator
    is the exact sum. *)
Lemma add_all_Decimal vs : ∀ d E,
  (Etiny ≤ E ≤ 0)%Z → (E ≤ exponent d ≤ 0)%Z →
  Forall (λ v, has_dtype t_Decimal v = true) vs →
  Forall (λ v, (E ≤ exponent (Decimal_of v))%Z) vs →
  (Z.abs (dec_align d E) + fold_right Z.add 0 (map (magnitude E) vs)
   < 10 ^ prec)%Z →
  add_all (VDecimal d) vs
  = Ok (VDecimal (fold_left dec_exact_add (map Decimal_of vs) d)).
Proof.
  induction vs as [|v vs IH]; intros d E HE Hd Hvs Hexp Hsum; [done|].
  apply Forall_cons in Hvs as [[x ->]%has_dtype_Decimal Hvs].
  apply Forall_cons in Hexp as [Hx Hexp]. cbn [Decimal_of] in Hx.
  cbn [map fold_right] in Hsum. unfold magnitude at 1 in Hsum.
  cbn [Decimal_of] in Hsum.
  assert (Hrest : (0 ≤ fold_right Z.add 0 (map (magnitude E) vs))%Z).
  { clear. induction vs as [|w ws IHw]; cbn; [lia|]. unfold magnitude at 1. lia. }
  set (d' := dec_exact_add d x).
  assert (Hd' : (E ≤ exponent d' ≤ 0)%Z) by (subst d'; cbn; lia).
  assert (Halign : dec_align d' E = (dec_align d E + dec_align x E)%Z)
    by (apply dec_exact_add_align; lia).
  pose proof (abs_coefficient_le_align d' E (proj1 Hd')) as Hcoef.
  assert (Hfix : dec_add d x = Ok d').
  { apply dec_fix_exact; [lia|]. unfold Etiny, Etop, Emin, Emax, prec in *. lia. }
  rewrite add_all_cons. cbn [py_add]. rewrite Hfix. cbn [rbind map fold_left Decimal_of].
  apply (IH d' E); try done. lia.
Qed.

Lemma fold_left_dec_add_Permutation ds ds' :
  Permutation ds ds' →
  ∀ d, fold_left dec_exact_add ds d = fold_left dec_exact_add ds' d.
Proof.
  induction 1 as [|x l l' _ IH|x y l|l l' l'' _ IH1 _ IH2]; intros d; cbn.
  - done.
  - apply IH.
  - f_equal. rewrite !dec_exact_add_assoc. f_equal. apply dec_exact_add_comm.
  - by rewrite IH1.
Qed.

Lemma fold_left_Z_add_Permutation zs zs' :
  Permutation zs zs' → ∀ n, fold_left Z.add zs n = fold_left Z.add zs' n.
Proof.
  induction 1 as [|x l l' _ IH|x y l|l l' l'' _ IH1 _ IH2]; intros n; cbn.
  - done.
  - apply IH.
  - f_equal. lia.
  - by rewrite IH1.
Qed.

Lemma fold_right_Z_add_Permutation zs zs' :
  Permutation zs zs' → fold_right Z.add 0%Z zs = fold_right Z.add 0%Z zs'.
Proof.
  induction 1 as [|x l l' _ IH|x y l|l l' l'' _ IH1 _ IH2]; cbn; lia.
Qed.

Lemma rmap_Permutation {A B} (f : A → result B) xs xs' :
  Permutation xs xs' → ∀ ys, rmap f xs = Ok ys →
  ∃ ys', rmap f xs' = Ok ys' ∧ Permutation ys ys'.
Proof.
  induction 1 as [|x l l' _ IH|x y l|l l' l'' _ IH1 _ IH2]; intros ys Hys.
  - injection Hys as <-. by exists [].
  - apply rmap_cons_inv in Hys as (y & ys' & Hy & Hys & ->).
    destruct (IH ys' Hys) as (zs & Hzs & Hperm).
    exists (y :: zs). cbn. rewrite Hy, Hzs. split; [done|]. by constructor.
  - apply rmap_cons_inv in Hys as (b & ys' & Hb & Hys & ->).
    apply rmap_cons_inv in Hys as (a & ys'' & Ha & Hys & ->).
    exists (a :: b :: ys''). cbn. rewrite Ha, Hb, Hys. split; [done|].
    apply perm_swap.
  - destruct (IH1 ys Hys) as (zs & Hzs & Hperm).
    destruct (IH2 zs Hzs) as (ws & Hws & Hperm').
    exists ws. split; [done|]. by etrans.
Qed.

(** The sum in the words of the specification, as a fold from the left. *)
Lemma sum_of_values_fold_left t vs :
  sum_of_values t vs
  = match t with
    | t_Decimal => VDecimal (fold_left dec_exact_add (map Decimal_of vs) ZERO)
    | _ => VInt (fold_left Z.add (map int_of vs) 0%Z)
    end.
Proof.
  assert (Hint : fold_left Z.add (map int_of vs) 0%Z
                 = fold_right Z.add 0%Z (map int_of vs))
    by (apply fold_symmetric; intros; lia).
  assert (Hdec : fold_left dec_exact_add (map Decimal_of vs) ZERO
                 = fold_right dec_exact_add ZERO (map Decimal_of vs)).
  { apply fold_symmetric; intros.
    - symmetry. apply dec_exact_add_assoc.
    - apply dec_exact_add_comm. }
  unfold sum_of_values. destruct t; by rewrite ?Hint, ?Hdec.
Qed.

(** The left fold of the aggregator computes the sum of the values: of
    integers always, of Decimals within the precision of the context. *)
Lemma add_all_numeric t E vs :
  numeric t → Forall (λ v, has_dtype t v = true) vs →
  (t = t_Decimal → fits_precision E vs) →
  add_all (match t with t_Decimal => VDecimal ZERO | _ => VInt 0 end) vs
  = Ok (sum_of_values t vs).
Proof.
  intros [-> | ->] Hvs Hfits; rewrite sum_of_values_fold_left.
  - by rewrite add_all_int.
  - destruct (Hfits eq_refl) as (HE & Hexp & Hsum).
    apply (add_all_Decimal vs ZERO E); try done;
      first [cbn; lia | unfold dec_align; cbn; lia].
Qed.

Lemma fits_precision_Permutation E vs vs' :
  Permutation vs vs' → fits_precision E vs → fits_precision E vs'.
Proof.
  intros Hperm (HE & Hexp & Hsum). split; [done|]. split.
  - by eapply Permutation_Forall.
  - rewrite <- (fold_right_Z_add_Permutation (map (magnitude E) vs)); [done|].
    by apply Permutation_map.
Qed.

Lemma sum_of_values_Permutation t vs vs' :
  Permutation vs vs' → sum_of_values t vs = sum_of_values t vs'.
Proof.
  intros Hperm. rewrite !sum_of_values_fold_left.
  assert (Hint : fold_left Z.add (map int_of vs) 0%Z
                 = fold_left Z.add (map int_of vs') 0%Z)
    by (apply fold_left_Z_add_Permutation; by apply Permutation_map).
  assert (Hdec : fold_left dec_exact_add (map Decimal_of vs) ZERO
                 = fold_left dec_exact_add (map Decimal_of vs') ZERO)
    by (apply fold_left_dec_add_Permutation; by apply Permutation_map).
  destruct t; by rewrite ?Hint, ?Hdec.
Qed.

(** C8, as amended. For Sum over an operand of type int, and over an
    operand of type Decimal whose values in the group are multiples of
    10 ^ E, for some E between Etiny and 0, with sizes that add up to less
    than 10 ^ 28 of that unit, so that the context rounds no partial sum: a
    group finalizes to the sum of the operand values of its rows, and
    presenting the rows in another order gives the same result and leaves
    the same state. *)
Theorem Sum_is_order_independent
    (op : EvalNode) (h : nat) (rows rows' : list context) (vs : list value)
    (E : Z) (s : state) :
  numeric (node_dtype op) →
  rmap (node_call op) rows = Ok vs →
  Forall (λ v, has_dtype (node_dtype op) v = true) vs →
  (node_dtype op = t_Decimal → fits_precision E vs) →
  Permutation rows rows' →
  let self := mkFunction Sum [op] (node_dtype op) (Some h) in
  rbind (new Sum [op]) (λ f, allocate f (mkAllocator h))
  = Ok (self, mkAllocator (S h))
  ∧ fst (run_group self rows s) = Ok (sum_of_values (node_dtype op) vs)
  ∧ run_group self rows' s = run_group self rows s.
Proof.
  intros Hnum Hmap Hvs Hfits Hperm self. destruct s as [st hp].
  split.
  { rewrite (new_single Sum op (one_of [t_int; t_Decimal]) (node_dtype op))
      by reflexivity.
    assert (accepts (one_of [t_int; t_Decimal]) (node_dtype op) = true) as ->
      by (destruct Hnum as [Hn | Hn]; by rewrite Hn).
    reflexivity. }
  set (t := node_dtype op) in *.
  set (seed := match t with t_Decimal => VDecimal ZERO | _ => VInt 0 end).
  assert (Hinit : initialize self (mkState st hp) = (Ok tt, with_slot st hp h seed)).
  { unfold initialize, bind; cbn [cls self fn_dtype].
    subst seed. by destruct Hnum as [-> | ->]. }
  assert (Hrun : ∀ rs ws, rmap (node_call op) rs = Ok ws →
            Forall (λ v, has_dtype t v = true) ws →
            (t = t_Decimal → fits_precision E ws) →
            run_group self rs (mkState st hp)
            = (Ok (sum_of_values t ws), with_slot st hp h (sum_of_values t ws))).
  { intros rs ws Hrs Hws Hfw. unfold run_group, bind. rewrite Hinit. unfold self.
    rewrite (Sum_update_rows op t h st hp rs ws seed (sum_of_values t ws) Hrs)
      by (by apply (add_all_numeric t E)).
    unfold finalize, bind, self_handle, ret; cbn.
    by rewrite store_get_with_slot. }
  destruct (rmap_Permutation _ _ _ Hperm vs Hmap) as (vs' & Hmap' & Hpvs).
  assert (Hvs' : Forall (λ v, has_dtype t v = true) vs')
    by (eapply Permutation_Forall; eauto).
  assert (Hfits' : t = t_Decimal → fits_precision E vs')
    by (intros Ht; eapply fits_precision_Permutation; eauto).
  rewrite (Hrun rows vs Hmap Hvs Hfits), (Hrun rows' vs' Hmap' Hvs' Hfits').
  split; [done|].
  by rewrite (sum_of_values_Permutation t vs vs' Hpvs).
Qed.

(** *** First and Last *)

Lemma First_update_set ops dt h st hp slot row :
  slot ≠ VNone →
  update (mkFunction First ops dt (Some h)) row (with_slot st hp h slot)
  = (Ok tt, with_slot st hp h slot).
Proof.
  intros Hslot. unfold update; cbn [cls].
  unfold bind at 1. cbn [self_handle handle]. unfold ret at 1.
  unfold bind at 1. rewrite store_get_with_slot.
  by destruct slot.
Qed.

Lemma First_update_rows_set ops dt h st hp slot rows :
  slot ≠ VNone →
  update_rows (mkFunction First ops dt (Some h)) rows (with_slot st hp h slot)
  = (Ok tt, with_slot st hp h slot).
Proof.
  intros Hslot. induction rows as [|row rows IH]; [done|].
  cbn [update_rows]. unfold bind at 1. by rewrite First_update_set.
Qed.

Lemma First_update_rows op dt h st hp rows : ∀ vs,
  rmap (node_call op) rows = Ok vs →
  update_rows (mkFunction First [op] dt (Some h)) rows (with_slot st hp h VNone)
  = (Ok tt, with_slot st hp h (first_not_None vs)).
Proof.
  induction rows as [|row rows IH]; intros vs Hmap.
  - by injection Hmap as <-.
  - apply rmap_cons_inv in Hmap as (v & vs' & Hv & Hmap & ->).
    cbn [update_rows]. unfold bind at 1.
    assert (Hupd : update (mkFunction First [op] dt (Some h)) row
                     (with_slot st hp h VNone) = (Ok tt, with_slot st hp h v)).
    { unfold update; cbn [cls].
      unfold bind at 1. cbn [self_handle handle]. unfold ret at 1.
      unfold bind at 1. rewrite store_get_with_slot.
      unfold bind at 1. rewrite eval_arg0_single, Hv.
      apply store_set_with_slot. }
    rewrite Hupd.
    cbv beta iota.
    destruct v; try (by rewrite First_update_rows_set).
    cbn [first_not_None]. by apply IH.
Qed.

Lemma last_cons_default {A} (vs : list A) : ∀ v d,
  List.last (v :: vs) d = List.last vs v.
Proof.
  induction vs as [|w ws IH]; intros v d; [done|].
  change (List.last (v :: w :: ws) d) with (List.last (w :: ws) d).
  by rewrite !IH.
Qed.

Lemma Last_update_rows op dt h st hp rows : ∀ vs slot,
  rmap (node_call op) rows = Ok vs →
  update_rows (mkFunction Last [op] dt (Some h)) rows (with_slot st hp h slot)
  = (Ok tt, with_slot st hp h (List.last vs slot)).
Proof.
  induction rows as [|row rows IH]; intros vs slot Hmap.
  - by injection Hmap as <-.
  - apply rmap_cons_inv in Hmap as (v & vs' & Hv & Hmap & ->).
    cbn [update_rows]. unfold bind at 1.
    assert (Hupd : update (mkFunction Last [op] dt (Some h)) row
                     (with_slot st hp h slot) = (Ok tt, with_slot st hp h v)).
    { unfold update; cbn [cls].
      unfold bind at 1. rewrite eval_arg0_single, Hv.
      unfold bind at 1. cbn [self_handle handle]. unfold ret at 1.
      apply store_set_with_slot. }
    rewrite Hupd, (IH vs' v Hmap). by rewrite last_cons_default.
Qed.

(** C6, as amended. After initialize and the updates of a group whose
    operand values are v1..vn, First finalizes to the first of these values
    that is not None (to v1 whenever v1 is not None, and to None when all of
    them are None), and Last finalizes to vn. *)
Theorem First_and_Last_of_group
    (op : EvalNode) (h : nat) (rows : list context) (v : value)
    (vs : list value) (s : state) :
  rmap (node_call op) rows = Ok (v :: vs) →
  fst (run_group (mkFunction First [op] (node_dtype op) (Some h)) rows s)
    = Ok (first_not_None (v :: vs))
  ∧ (v ≠ VNone →
     fst (run_group (mkFunction First [op] (node_dtype op) (Some h)) rows s)
       = Ok v)
  ∧ fst (run_group (mkFunction Last [op] (node_dtype op) (Some h)) rows s)
    = Ok (List.last (v :: vs) VNone).
Proof.
  intros Hmap. destruct s as [st hp].
  assert (HF : fst (run_group (mkFunction First [op] (node_dtype op) (Some h))
                      rows (mkState st hp)) = Ok (first_not_None (v :: vs))).
  { unfold run_group. unfold bind at 1.
    change (initialize _ (mkState st hp)) with (Ok tt, with_slot st hp h VNone).
    cbv beta iota. unfold bind at 1.
    rewrite (First_update_rows op _ h st hp rows (v :: vs) Hmap).
    unfold finalize, bind, self_handle, ret; cbn [cls is_aggregator handle].
    by rewrite store_get_with_slot. }
  split; [exact HF|]. split.
  - intros Hv. rewrite HF. by destruct v.
  - unfold run_group. unfold bind at 1.
    change (initialize _ (mkState st hp)) with (Ok tt, with_slot st hp h VNone).
    cbv beta iota. unfold bind at 1.
    rewrite (Last_update_rows op _ h st hp rows (v :: vs) VNone Hmap).
    unfold finalize, bind, self_handle, ret; cbn [cls is_aggregator handle].
    by rewrite store_get_with_slot.
Qed.

(** *** Frame: what the operations write *)

Lemma preserves_ret {A} k (a : A) : preserves_slot k (ret a).
Proof. by intros s. Qed.

Lemma preserves_raise {A} k e : preserves_slot k (raise (A := A) e).
Proof. by intros s. Qed.

Lemma preserves_lift {A} k (r : result A) : preserves_slot k (lift r).
Proof. by intros s. Qed.

Lemma preserves_bind {A B} k (m : M A) (f : A → M B) :
  preserves_slot k m → (∀ a, preserves_slot k (f a)) →
  preserves_slot k (bind m f).
Proof.
  intros Hm Hf s. unfold bind. specialize (Hm s).
  destruct (m s) as [[a|e] s']; cbn in *; [|done].
  by rewrite Hf.
Qed.

Lemma preserves_store_get k h : preserves_slot k (store_get h).
Proof. intros s. unfold store_get. by destruct (store s !! h). Qed.

Lemma preserves_store_set k h v : h ≠ k → preserves_slot k (store_set h v).
Proof. intros Hne s. cbn. by rewrite lookup_insert_ne. Qed.

Lemma preserves_heap_new k i : preserves_slot k (heap_new i).
Proof. by intros s. Qed.

Lemma preserves_heap_get k l : preserves_slot k (heap_get l).
Proof. intros s. unfold heap_get. by destruct (heap s !! l). Qed.

Lemma preserves_heap_set k l i : preserves_slot k (heap_set l i).
Proof. by intros s. Qed.

Lemma preserves_self_handle k self : preserves_slot k (self_handle self).
Proof. unfold self_handle. destruct (handle self); by intros s. Qed.

Lemma preserves_dtype_call k t : preserves_slot k (dtype_call t).
Proof. destruct t; by intros s. Qed.

Lemma preserves_eval_arg0 k self row : preserves_slot k (eval_arg0 self row).
Proof. by intros s. Qed.

(** A slot is written under the handle of the aggregator only. *)
Lemma preserves_with_handle {A} k self (f : nat → M A) :
  handle self ≠ Some k →
  (∀ h, h ≠ k → preserves_slot k (f h)) →
  preserves_slot k (bind (self_handle self) f).
Proof.
  intros Hk Hf. unfold self_handle.
  destruct (handle self) as [h|]; [|by intros s].
  intros s. apply (Hf h). congruence.
Qed.

Lemma preserves_inventory_method k self add :
  (∀ inv, preserves_slot k (add inv)) →
  preserves_slot k (inventory_method self add).
Proof.
  intros Hadd. unfold inventory_method.
  apply preserves_bind; [apply preserves_self_handle|]; intros h.
  apply preserves_bind; [apply preserves_store_get|]; intros slot.
  destruct slot; try apply preserves_raise.
  apply preserves_bind; [apply preserves_heap_get|]; intros inv.
  apply preserves_bind; [apply Hadd|]; intros inv'.
  apply preserves_heap_set.
Qed.

Lemma initialize_preserves k self :
  handle self ≠ Some k → preserves_slot k (initialize self).
Proof.
  intros Hk. unfold initialize.
  destruct (cls self); try apply preserves_raise;
    repeat first
      [ apply preserves_with_handle; [exact Hk|]; intros h Hh
      | apply preserves_bind; [first [apply preserves_dtype_call
                                     | apply preserves_heap_new]|]; intros ?
      | by apply preserves_store_set ].
Qed.

Lemma update_preserves k self row :
  handle self ≠ Some k → preserves_slot k (update self row).
Proof.
  intros Hk. unfold update.
  destruct (cls self); try apply preserves_raise;
    repeat first
      [ apply preserves_inventory_method; intros inv
      | apply preserves_with_handle; [exact Hk|]; intros h Hh
      | apply preserves_bind;
          [first [ apply preserves_eval_arg0 | apply preserves_store_get
                 | apply preserves_lift | apply preserves_heap_get ]|];
          intros ?
      | by apply preserves_store_set
      | apply preserves_ret
      | apply preserves_raise
      | match goal with |- preserves_slot _ (match ?x with _ => _ end) =>
          destruct x end ].
Qed.

Lemma finalize_read_only self : read_only (finalize self).
Proof.
  intros s. unfold finalize, bind, self_handle, store_get, ret, raise.
  destruct (is_aggregator (cls self)); [|done].
  destruct (handle self) as [h|]; [|done]. cbn.
  by destruct (store s !! h).
Qed.

(** An [Inventory] object is changed only through the slot that holds it:
    initialize leaves the objects of the heap as they are, and update those
    that the slot of the aggregator does not refer to. *)
Lemma initialize_heap self s l :
  is_Some (heap s !! l) → heap (initialize self s).2 !! l = heap s !! l.
Proof.
  intros Hl.
  assert (Hfresh : fresh (dom (heap s)) ≠ l).
  { intros <-. apply elem_of_dom in Hl. by apply is_fresh in Hl. }
  unfold initialize, bind, self_handle, store_set, heap_new, dtype_call, ret, raise.
  destruct (cls self); try done;
    destruct (handle self); try done; cbn;
    try (destruct (fn_dtype self); cbn; try done);
    by rewrite ?lookup_insert_ne.
Qed.

Lemma inventory_method_heap self add h s l :
  handle self = Some h →
  store s !! h ≠ Some (VInventory l) →
  (∀ inv, read_only (add inv)) →
  heap (inventory_method self add s).2 !! l = heap s !! l.
Proof.
  intros Hh Hl Hadd.
  unfold inventory_method, bind, self_handle, store_get, heap_get, heap_set,
    raise, ret.
  rewrite Hh. destruct (store s !! h) as [slot|] eqn:Hslot; [|done].
  destruct slot; try done.
  destruct (heap s !! l0) as [inv|]; [|done].
  specialize (Hadd inv s). destruct (add inv s) as [[inv'|e] s']; cbn in *;
    subst s'; [|done].
  rewrite lookup_insert_ne; [done|]. congruence.
Qed.

Lemma same_heap_bind {A B} (m : M A) (f : A → M B) :
  same_heap m → (∀ a, same_heap (f a)) → same_heap (bind m f).
Proof.
  intros Hm Hf s. unfold bind. specialize (Hm s).
  destruct (m s) as [[a|e] s']; cbn in *; [|done].
  by rewrite Hf.
Qed.

Lemma same_heap_store_get h : same_heap (store_get h).
Proof. intros s. unfold store_get. by destruct (store s !! h). Qed.

Lemma same_heap_self_handle self : same_heap (self_handle self).
Proof. unfold self_handle. destruct (handle self); by intros s. Qed.

Lemma update_heap self row h s l :
  handle self = Some h →
  store s !! h ≠ Some (VInventory l) →
  heap (update self row s).2 !! l = heap s !! l.
Proof.
  intros Hh Hl.
  assert (Hsame : ∀ m : M unit, same_heap m → heap (m s).2 !! l = heap s !! l)
    by (intros m Hm; by rewrite Hm).
  assert (Hinv : ∀ add, (∀ value inv, read_only (add value inv)) →
            heap ((let* value := eval_arg0 self row in
                   inventory_method self (add value)) s).2 !! l = heap s !! l).
  { intros add Hadd. unfold bind at 1, eval_arg0, lift.
    destruct (rbind (eval_args self row) item0) as [value|]; [|done].
    by apply (inventory_method_heap self _ h s l Hh Hl). }
  unfold update. destruct (cls self); try done;
    try solve
      [ apply Hsame;
        repeat first
          [ apply same_heap_bind;
              [first [ apply same_heap_self_handle | apply same_heap_store_get
                     | by intros ? ]|]; intros ?
          | match goal with |- same_heap (match ?x with _ => _ end) =>
              destruct x end
          | by intros ? ] ].
  - apply (Hinv (λ value inv, match value with
                              | VAmount a => ret (add_amount inv a)
                              | _ => raise AttributeError
                              end)).
    intros value inv s'. by destruct value.
  - apply (Hinv (λ value inv, match value with
                              | VPosition p => ret (add_position inv p)
                              | _ => raise AttributeError
                              end)).
    intros value inv s'. by destruct value.
  - apply (Hinv (λ value inv, match value with
                              | VInventory l' =>
                                  let* other := heap_get l' in
                                  ret (add_inventory inv other)
                              | _ => raise AttributeError
                              end)).
    intros value inv s'. destruct value; try done.
    unfold bind, heap_get, ret. by destruct (heap s' !! l0).
Qed.

(** C9. Every aggregator writes, in initialize and in update, no slot of the
    store but the one under its handle, and finalize writes nothing, for
    every store. The Inventory objects that the slots refer to are changed
    only through the slot of the aggregator that updates. *)
Theorem aggregator_writes_its_slot_only
    (self : EvalFunction) (row : context) (s : state) (k : nat) :
  handle self ≠ Some k →
  store (initialize self s).2 !! k = store s !! k
  ∧ store (update self row s).2 !! k = store s !! k
  ∧ (finalize self s).2 = s
  ∧ (∀ l, is_Some (heap s !! l) → heap (initialize self s).2 !! l = heap s !! l)
  ∧ (∀ h l, handle self = Some h → store s !! h ≠ Some (VInventory l) →
       heap (update self row s).2 !! l = heap s !! l).
Proof.
  intros Hk. split; [by apply initialize_preserves|].
  split; [by apply update_preserves|].
  split; [apply finalize_read_only|].
  split; [apply initialize_heap|].
  intros h l. apply update_heap.
Qed.

(** *** Further behaviour of the aggregators *)

Lemma finalize_with_slot c ops dt h st hp v :
  is_aggregator c = true →
  finalize (mkFunction c ops dt (Some h)) (with_slot st hp h v)
  = (Ok v, with_slot st hp h v).
Proof.
  intros Hc. unfold finalize; cbn [cls]. rewrite Hc.
  unfold bind, self_handle, ret; cbn. by rewrite store_get_with_slot.
Qed.

(** X1. Once the slot of First holds a value that is not None, the rows
    that follow change nothing and their operands are not evaluated: the
    updates succeed whatever the operands are, the state stays as it is and
    finalize returns the value. *)
Theorem First_keeps_the_value_once_set
    (ops : list EvalNode) (dt : dtype) (h : nat) (st : gmap nat value)
    (hp : gmap loc Inventory) (v : value) (rows : list context) :
  v ≠ VNone →
  let self := mkFunction First ops dt (Some h) in
  update_rows self rows (with_slot st hp h v) = (Ok tt, with_slot st hp h v)
  ∧ (let* _ := update_rows self rows in finalize self) (with_slot st hp h v)
    = (Ok v, with_slot st hp h v).
Proof.
  intros Hv self.
  assert (Hrows : update_rows self rows (with_slot st hp h v)
                  = (Ok tt, with_slot st hp h v))
    by (by apply First_update_rows_set).
  split; [exact Hrows|].
  unfold bind. rewrite Hrows. by apply finalize_with_slot.
Qed.

(** X2. On a group without rows First and Last finalize to None, and the
    aggregators of the SumBase classes to a new Inventory, empty, at a
    location that the heap did not hold. *)
Theorem empty_group_results
    (c : func_class) (ops : list EvalNode) (dt : dtype) (h : nat) (s : state) :
  let self := mkFunction c ops dt (Some h) in
  (c = First ∨ c = Last → (run_group self [] s).1 = Ok VNone)
  ∧ (c = SumAmount ∨ c = SumPosition ∨ c = SumInventory →
     ∃ l, (run_group self [] s).1 = Ok (VInventory l)
          ∧ heap s !! l = None
          ∧ heap (run_group self [] s).2 !! l = Some Inventory_new).
Proof.
  intros self. subst self. destruct s as [st hp].
  assert (Hrun : ∀ v hp',
            initialize (mkFunction c ops dt (Some h)) (mkState st hp)
            = (Ok tt, with_slot st hp' h v) →
            is_aggregator c = true →
            run_group (mkFunction c ops dt (Some h)) [] (mkState st hp)
            = (Ok v, with_slot st hp' h v)).
  { intros v hp' Hinit Hagg. unfold run_group, bind. rewrite Hinit.
    cbn [update_rows]. unfold ret. by apply finalize_with_slot. }
  split.
  - intros Hc. rewrite (Hrun VNone hp); [done| |];
      by destruct Hc as [-> | ->].
  - intros Hc. set (l := fresh (dom hp)). exists l.
    assert (Hfresh : hp !! l = None)
      by (apply not_elem_of_dom, is_fresh).
    rewrite (Hrun (VInventory l) (<[l := Inventory_new]> hp));
      [|by destruct Hc as [-> | [-> | ->]]..].
    split; [reflexivity|]. split; [exact Hfresh|].
    apply (lookup_insert_eq hp).
Qed.

Lemma extremum_update_rows_at_seed c op dt h st hp seed rows : ∀ vs,
  c = Min ∨ c = Max →
  rmap (node_call op) rows = Ok vs →
  Forall (λ v, replaces c v seed = Ok false) vs →
  update_rows (mkFunction c [op] dt (Some h)) rows (with_slot st hp h seed)
  = (Ok tt, with_slot st hp h seed).
Proof.
  induction rows as [|row rows IH]; intros vs Hc Hmap Hvs; [done|].
  apply rmap_cons_inv in Hmap as (v & vs' & Hv & Hmap & ->).
  apply Forall_cons in Hvs as [Hlt Hvs].
  cbn [update_rows]. unfold bind at 1.
  rewrite (extremum_update c op dt h st hp seed row v false Hc Hv Hlt).
  by apply (IH vs').
Qed.

(** X3. Min and Max never go beyond their seed: when no value of the group
    is smaller than the zero of the operand type, Min finalizes to that
    zero, and when none is greater, Max does, also when the zero is none of
    the values of the group. *)
Theorem extremum_stays_at_the_seed
    (c : func_class) (op : EvalNode) (h : nat) (rows : list context)
    (vs : list value) (st : gmap nat value) (hp : gmap loc Inventory) :
  c = Min ∨ c = Max →
  numeric (node_dtype op) →
  rmap (node_call op) rows = Ok vs →
  let seed := match node_dtype op with
              | t_Decimal => VDecimal ZERO
              | _ => VInt 0
              end in
  Forall (λ v, (if decide (c = Max) then py_gt v seed else py_lt v seed)
               = Ok false) vs →
  run_group (mkFunction c [op] (node_dtype op) (Some h)) rows (mkState st hp)
  = (Ok seed, with_slot st hp h seed).
Proof.
  intros Hc Hnum Hmap seed Hvs.
  set (self := mkFunction c [op] (node_dtype op) (Some h)).
  assert (Hinit : initialize self (mkState st hp) = (Ok tt, with_slot st hp h seed)).
  { subst self seed. unfold initialize; cbn [cls fn_dtype].
    destruct Hc as [-> | ->], Hnum as [-> | ->]; reflexivity. }
  unfold run_group, bind. rewrite Hinit. unfold self.
  rewrite (extremum_update_rows_at_seed c op _ h st hp seed rows vs Hc Hmap).
  - apply finalize_with_slot. by destruct Hc as [-> | ->].
  - eapply Forall_impl; [exact Hvs|]. intros v Hv.
    destruct Hc as [-> | ->]; exact Hv.
Qed.

(** X4. A date is not built without arguments: Min and Max over an operand
    of type date are constructed and allocated, and raise TypeError in
    initialize, for every group, before any row is read and without
    changing the state; First and Last over the same operand initialize
    their slot to None. *)
Theorem extremum_of_dates_cannot_initialize
    (c : func_class) (op : EvalNode) (h : nat) (rows : list context) (s : state) :
  node_dtype op = t_date →
  let self := mkFunction c [op] t_date (Some h) in
  (c ∈ [Min; Max; First; Last] →
   rbind (new c [op]) (λ f, allocate f (mkAllocator h))
   = Ok (self, mkAllocator (S h)))
  ∧ (c = Min ∨ c = Max →
     initialize self s = (Raise TypeError, s)
     ∧ run_group self rows s = (Raise TypeError, s))
  ∧ (c = First ∨ c = Last →
     initialize self s = (Ok tt, with_slot (store s) (heap s) h VNone)).
Proof.
  intros Hop self. repeat apply conj.
  - intros Hc. unfold new; cbn.
    repeat (apply elem_of_cons in Hc as [-> | Hc]);
      try (by apply elem_of_nil in Hc); cbn; by rewrite Hop.
  - intros Hc; split; by destruct Hc as [-> | ->].
  - by intros [-> | ->].
Qed.

(** *** The aggregators of the SumBase classes *)

Lemma same_store_bind {A B} (m : M A) (f : A → M B) :
  same_store m → (∀ a, same_store (f a)) → same_store (bind m f).
Proof.
  intros Hm Hf s. unfold bind. specialize (Hm s).
  destruct (m s) as [[a|e] s']; cbn in *; [|done].
  by rewrite Hf.
Qed.

Lemma same_store_inventory_method self add :
  (∀ inv, same_store (add inv)) → same_store (inventory_method self add).
Proof.
  intros Hadd. unfold inventory_method.
  apply same_store_bind.
  { unfold self_handle. destruct (handle self); by intros s. }
  intros h. apply same_store_bind.
  { intros s. unfold store_get. by destruct (store s !! h). }
  intros slot. destruct slot; try (by intros ?).
  apply same_store_bind.
  { intros s. unfold heap_get. by destruct (heap s !! l). }
  intros inv. apply same_store_bind; [apply Hadd|]. by intros inv' s.
Qed.

Lemma SumBase_update_same_store self row :
  cls self ∈ [SumAmount; SumPosition; SumInventory] →
  same_store (update self row).
Proof.
  intros Hc. unfold update.
  repeat (apply elem_of_cons in Hc as [-> | Hc]);
    try (by apply elem_of_nil in Hc).
  all: apply same_store_bind; [by intros s|]; intros value.
  all: apply same_store_inventory_method; intros inv.
  all: destruct value; try (by intros ?).
  apply same_store_bind; [|by intros other ?].
  intros s. unfold heap_get. by destruct (heap s !! l).
Qed.

(** One update of SumPosition and of SumAmount on a slot that refers to
    an inventory. *)
Lemma SumPosition_update op dt h s l inv row p :
  store s !! h = Some (VInventory l) →
  heap s !! l = Some inv →
  node_call op row = Ok (VPosition p) →
  update (mkFunction SumPosition [op] dt (Some h)) row s
  = (Ok tt, mkState (store s) (<[l := add_position inv p]> (heap s))).
Proof.
  intros Hslot Hinv Hp. unfold update; cbn [cls].
  unfold bind at 1. rewrite eval_arg0_single, Hp.
  unfold inventory_method, bind, self_handle, store_get, heap_get, heap_set, ret.
  cbn [handle]. by rewrite Hslot, Hinv.
Qed.

Lemma SumAmount_update op dt h s l inv row a :
  store s !! h = Some (VInventory l) →
  heap s !! l = Some inv →
  node_call op row = Ok (VAmount a) →
  update (mkFunction SumAmount [op] dt (Some h)) row s
  = (Ok tt, mkState (store s) (<[l := add_amount inv a]> (heap s))).
Proof.
  intros Hslot Hinv Ha. unfold update; cbn [cls].
  unfold bind at 1. rewrite eval_arg0_single, Ha.
  unfold inventory_method, bind, self_handle, store_get, heap_get, heap_set, ret.
  cbn [handle]. by rewrite Hslot, Hinv.
Qed.

(** The updates of a group, given what one update does. *)
Lemma inventory_update_rows {A} (inject : A → value)
    (add : Inventory → A → Inventory) (self : EvalFunction) (op : EvalNode)
    (h : nat) (l : loc) :
  (∀ s inv row x,
     store s !! h = Some (VInventory l) → heap s !! l = Some inv →
     node_call op row = Ok (inject x) →
     update self row s = (Ok tt, mkState (store s) (<[l := add inv x]> (heap s)))) →
  ∀ rows xs st hp inv,
    st !! h = Some (VInventory l) →
    rmap (node_call op) rows = Ok (map inject xs) →
    update_rows self rows (mkState st (<[l := inv]> hp))
    = (Ok tt, mkState st (<[l := fold_left add xs inv]> hp)).
Proof.
  intros Hupd. induction rows as [|row rows IH]; intros xs st hp inv Hslot Hmap.
  - destruct xs; [done|]. discriminate Hmap.
  - apply rmap_cons_inv in Hmap as (v & vs' & Hv & Hmap & Hxs).
    destruct xs as [|x xs]; [discriminate Hxs|].
    cbn [map] in Hxs. injection Hxs as <- <-.
    cbn [update_rows]. unfold bind at 1.
    rewrite (Hupd (mkState st (<[l := inv]> hp)) inv row x Hslot
               (lookup_insert_eq hp l inv) Hv).
    cbn [store heap fold_left]. rewrite insert_insert_eq.
    by apply (IH xs st hp (add inv x)).
Qed.

(** X5. SumPosition and SumAmount create their Inventory in initialize,
    at a location that the heap did not hold, and merge the positions,
    respectively the amounts, of the rows of the group into it in row
    order, starting from the empty Inventory; finalize returns the
    reference to it. *)
Theorem inventory_sums_fold_in_row_order
    (op : EvalNode) (h : nat) (rows : list context) (s : state) :
  let l := fresh (dom (heap s)) in
  let result inv :=
    (Ok (VInventory l),
     mkState (<[h := VInventory l]> (store s)) (<[l := inv]> (heap s))) in
  heap s !! l = None
  ∧ (∀ ps, rmap (node_call op) rows = Ok (map VPosition ps) →
       run_group (mkFunction SumPosition [op] t_Inventory (Some h)) rows s
       = result (fold_left add_position ps Inventory_new))
  ∧ (∀ amounts, rmap (node_call op) rows = Ok (map VAmount amounts) →
       run_group (mkFunction SumAmount [op] t_Inventory (Some h)) rows s
       = result (fold_left add_amount amounts Inventory_new)).
Proof.
  intros l result. destruct s as [st hp]. cbn [heap store] in *.
  split; [apply not_elem_of_dom, is_fresh|].
  assert (Hfin : ∀ c inv, is_aggregator c = true →
            finalize (mkFunction c [op] t_Inventory (Some h))
              (mkState (<[h := VInventory l]> st) (<[l := inv]> hp))
            = result inv).
  { intros c inv Hc.
    apply (finalize_with_slot c [op] t_Inventory h st (<[l := inv]> hp)
             (VInventory l) Hc). }
  split.
  - intros ps Hmap. unfold run_group. unfold bind at 1.
    change (initialize _ (mkState st hp))
      with (Ok tt, mkState (<[h := VInventory l]> st) (<[l := Inventory_new]> hp)).
    cbv beta iota. unfold bind at 1.
    rewrite (inventory_update_rows VPosition add_position _ op h l
               (λ s', SumPosition_update op t_Inventory h s' l) rows ps _ hp Inventory_new
               (lookup_insert_eq st h (VInventory l)) Hmap).
    by apply Hfin.
  - intros amounts Hmap. unfold run_group. unfold bind at 1.
    change (initialize _ (mkState st hp))
      with (Ok tt, mkState (<[h := VInventory l]> st) (<[l := Inventory_new]> hp)).
    cbv beta iota. unfold bind at 1.
    rewrite (inventory_update_rows VAmount add_amount _ op h l
               (λ s', SumAmount_update op t_Inventory h s' l) rows amounts _ hp Inventory_new
               (lookup_insert_eq st h (VInventory l)) Hmap).
    by apply Hfin.
Qed.

(** What the updates of a SumBase aggregator keep: the reference in the
    slot, and the objects other than the one referred to. *)
Lemma SumBase_update_rows_keeps self h l rows : ∀ s,
  cls self ∈ [SumAmount; SumPosition; SumInventory] →
  handle self = Some h →
  store s !! h = Some (VInventory l) →
  store (update_rows self rows s).2 = store s
  ∧ ∀ l', l' ≠ l → heap (update_rows self rows s).2 !! l' = heap s !! l'.
Proof.
  induction rows as [|row rows IH]; intros s Hc Hh Hslot; [done|].
  cbn [update_rows]. unfold bind.
  pose proof (SumBase_update_same_store self row Hc s) as Hstore.
  assert (Hheap : ∀ l', l' ≠ l →
            heap (update self row s).2 !! l' = heap s !! l').
  { intros l' Hl'. apply (update_heap self row h s l' Hh).
    rewrite Hslot. congruence. }
  destruct (update self row s) as [[[]|e] s1]; cbn [snd] in *.
  - destruct (IH s1 Hc Hh) as [Hst Hhp]; [by rewrite Hstore|].
    split; [by rewrite Hst|]. intros l' Hl'. rewrite Hhp by done. by apply Hheap.
  - done.
Qed.

(** X6. A group of a SumBase aggregator changes no Inventory that existed
    when the group started, whatever its rows and operands are and also
    when an update raises: the inventories that finalize returned for
    earlier groups stay as they were. The result of the group, when there
    is one, refers to an Inventory that did not exist before. *)
Theorem group_leaves_earlier_inventories
    (self : EvalFunction) (h : nat) (rows : list context) (s : state) :
  cls self ∈ [SumAmount; SumPosition; SumInventory] →
  handle self = Some h →
  (∀ l, is_Some (heap s !! l) → heap (run_group self rows s).2 !! l = heap s !! l)
  ∧ (∀ v, (run_group self rows s).1 = Ok v →
       ∃ l, v = VInventory l ∧ heap s !! l = None).
Proof.
  intros Hc Hh. destruct s as [st hp].
  set (l := fresh (dom hp)).
  assert (Hfresh : hp !! l = None) by (apply not_elem_of_dom, is_fresh).
  set (s1 := mkState (<[h := VInventory l]> st) (<[l := Inventory_new]> hp)).
  assert (Hinit : initialize self (mkState st hp) = (Ok tt, s1)).
  { unfold initialize, bind, self_handle. rewrite Hh.
    repeat (apply elem_of_cons in Hc as [-> | Hc]);
      try (by apply elem_of_nil in Hc); reflexivity. }
  assert (Hslot : store s1 !! h = Some (VInventory l))
    by apply (lookup_insert_eq st).
  destruct (SumBase_update_rows_keeps self h l rows s1 Hc Hh Hslot)
    as [Hstore Hheap].
  assert (Hagg : is_aggregator (cls self) = true).
  { repeat (apply elem_of_cons in Hc as [-> | Hc]);
      try (by apply elem_of_nil in Hc); reflexivity. }
  assert (Hold : ∀ l', is_Some (hp !! l') →
            l' ≠ l ∧ heap s1 !! l' = hp !! l').
  { intros l' Hl'. assert (l' ≠ l) as Hne.
    { intros Heq. rewrite Heq, Hfresh in Hl'. by destruct Hl'. }
    split; [done|]. by apply (lookup_insert_ne hp). }
  unfold run_group, bind. rewrite Hinit. cbn [heap].
  destruct (update_rows self rows s1) as [[[]|e] s2] eqn:Hrows; cbn [snd] in *.
  - pose proof (finalize_read_only self s2) as Hro.
    assert (Hfin : (finalize self s2).1 = Ok (VInventory l)).
    { unfold finalize. rewrite Hagg. unfold bind, self_handle, store_get, ret.
      rewrite Hh, Hstore, Hslot. reflexivity. }
    split.
    + intros l' Hl'. destruct (Hold l' Hl') as [Hne Hs1].
      rewrite Hro, Hheap by done. exact Hs1.
    + intros v Hv. rewrite Hfin in Hv. injection Hv as <-. eauto.
  - split; [|done]. intros l' Hl'. destruct (Hold l' Hl') as [Hne Hs1].
    rewrite Hheap by done. exact Hs1.
Qed.

(** *** What an aggregator reads of the state *)

Lemma slot_local_ret {A} h (a : A) : slot_local h (ret a).
Proof. by intros s s' Hs. Qed.

Lemma slot_local_raise {A} h e : slot_local h (raise (A := A) e).
Proof. by intros s s' Hs. Qed.

Lemma slot_local_lift {A} h (r : result A) : slot_local h (lift r).
Proof. by intros s s' Hs. Qed.

Lemma slot_local_bind {A B} h (m : M A) (f : A → M B) :
  slot_local h m → (∀ a, slot_local h (f a)) → slot_local h (bind m f).
Proof.
  intros Hm Hf s s' Hs. unfold bind.
  destruct (Hm s s' Hs) as [Hres Hst].
  destruct (m s) as [[a|e] s1], (m s') as [[a'|e'] s1']; cbn [fst snd] in *;
    try discriminate Hres.
  - injection Hres as <-. by apply Hf.
  - by injection Hres as <-.
Qed.

Lemma slot_local_bind_ret {A B} h (a : A) (f : A → M B) :
  slot_local h (f a) → slot_local h (bind (ret a) f).
Proof. intros Hf s s' Hs. exact (Hf s s' Hs). Qed.

Lemma slot_local_store_get h : slot_local h (store_get h).
Proof.
  intros s s' Hs. unfold store_get. pose proof Hs as Hs'.
  unfold slot_equiv in Hs'. rewrite Hs'. by destruct (store s' !! h).
Qed.

Lemma slot_local_store_set h v : slot_local h (store_set h v).
Proof.
  intros s s' Hs. split; [done|]. unfold slot_equiv, store_set; cbn.
  by rewrite !lookup_insert_eq.
Qed.

Ltac slot_local_steps :=
  repeat first
    [ apply slot_local_store_get
    | apply slot_local_store_set
    | apply slot_local_lift
    | apply slot_local_ret
    | apply slot_local_raise
    | apply slot_local_bind_ret
    | apply slot_local_bind; [|intros ?]
    | match goal with |- slot_local _ (match ?x with _ => _ end) =>
        destruct x end
    | match goal with |- slot_local _ (if ?x then _ else _) =>
        destruct x end ].

Lemma update_slot_local self h row :
  plain_aggregator self → handle self = Some h →
  slot_local h (update self row).
Proof.
  intros [Hc _] Hh. destruct self as [c ops dt hd]. cbn in Hc, Hh. subst hd.
  unfold update, self_handle, eval_arg0; cbn [cls handle].
  repeat (apply elem_of_cons in Hc as [-> | Hc]);
    try (by apply elem_of_nil in Hc); slot_local_steps.
Qed.

Lemma update_rows_slot_local self h rows :
  plain_aggregator self → handle self = Some h →
  slot_local h (update_rows self rows).
Proof.
  intros Hp Hh. induction rows as [|row rows IH]; [apply slot_local_ret|].
  cbn [update_rows]. apply slot_local_bind; [by apply update_slot_local|].
  by intros _.
Qed.

Lemma finalize_slot_local self h :
  handle self = Some h → slot_local h (finalize self).
Proof.
  intros Hh. unfold finalize, self_handle. rewrite Hh.
  destruct (is_aggregator (cls self)); slot_local_steps.
Qed.

(** Whatever the state was, initialize of a plain aggregator fails in the
    same way or leaves the same value in the slot. *)
Lemma initialize_resets self h s s' :
  plain_aggregator self → handle self = Some h →
  (initialize self s).1 = (initialize self s').1
  ∧ ((initialize self s).1 = Ok tt →
     slot_equiv h (initialize self s).2 (initialize self s').2).
Proof.
  intros [Hc Hdt] Hh. destruct self as [c ops dt hd]. cbn in Hc, Hdt, Hh.
  subst hd. unfold initialize, self_handle, slot_equiv; cbn [cls handle fn_dtype].
  repeat (apply elem_of_cons in Hc as [-> | Hc]);
    try (by apply elem_of_nil in Hc).
  all: try (split; [done|]; intros _; cbn; by rewrite !lookup_insert_eq).
  all: destruct dt; try done;
    (split; [done|]; intros H; cbn in *; first [discriminate H
                                               | by rewrite !lookup_insert_eq]).
Qed.

(** X7. A group of a plain aggregator (Count, Sum, First, Last, Min or Max
    over a type other than Inventory) takes nothing over from the state it
    starts in: whatever the store and the heap hold, and whatever an earlier
    group left in the slot, the group has the same result or raises the same
    error. *)
Theorem group_result_ignores_the_prior_state
    (self : EvalFunction) (h : nat) (rows : list context) (s s' : state) :
  plain_aggregator self → handle self = Some h →
  (run_group self rows s).1 = (run_group self rows s').1.
Proof.
  intros Hp Hh.
  destruct (initialize_resets self h s s' Hp Hh) as [Hres Hst].
  assert (Hrest : slot_local h (let* _ := update_rows self rows in finalize self)).
  { apply slot_local_bind; [by apply update_rows_slot_local|].
    intros _. by apply finalize_slot_local. }
  unfold run_group. unfold bind at 1. unfold bind at 2.
  destruct (initialize self s) as [[[]|e] s1], (initialize self s') as [[[]|e'] s1'];
    cbn [fst snd] in *; try discriminate Hres.
  - by apply Hrest, Hst.
  - by injection Hres as <-.
Qed.

(** X8. The steps of another aggregator, in between those of a plain
    aggregator, change nothing for it: after an initialize or an update of
    an aggregator with another handle, update has the same outcome and
    leaves the same value in the slot, and finalize returns the same
    value. *)
Theorem steps_of_another_aggregator_do_not_interfere
    (self other : EvalFunction) (h : nat) (row row' : context) (s : state)
    (step : M unit) :
  plain_aggregator self → handle self = Some h → handle other ≠ Some h →
  step = initialize other ∨ step = update other row' →
  (update self row (step s).2).1 = (update self row s).1
  ∧ store (update self row (step s).2).2 !! h = store (update self row s).2 !! h
  ∧ (finalize self (step s).2).1 = (finalize self s).1.
Proof.
  intros Hp Hh Hother Hstep.
  assert (Hs : slot_equiv h (step s).2 s).
  { destruct Hstep as [-> | ->];
      [by apply initialize_preserves | by apply update_preserves]. }
  destruct (update_slot_local self h row Hp Hh _ _ Hs) as [Hres Hst].
  destruct (finalize_slot_local self h Hh _ _ Hs) as [Hfin _].
  done.
Qed.

(** *** Sum over truth values *)

Lemma append_cons (x : ascii) (a b : string) :
  (String x a ++ b)%string = String x (a ++ b).
Proof. reflexivity. Qed.

Lemma append_nil_r (s : string) : (s ++ "")%string = s.
Proof. induction s as [|c s IH]; [done|]. by rewrite append_cons, IH. Qed.

Lemma append_assoc (a b c : string) :
  ((a ++ b) ++ c)%string = (a ++ (b ++ c))%string.
Proof. induction a as [|x a IH]; [done|]. by rewrite !append_cons, IH. Qed.

Lemma add_all_bool bs : ∀ n,
  add_all (VInt n) (map VBool bs)
  = Ok (VInt (n + Z.of_nat (count_occ Bool.bool_dec bs true))).
Proof.
  induction bs as [|b bs IH]; intros n.
  - cbn. do 2 f_equal. lia.
  - cbn [map]. rewrite add_all_cons. cbn [py_add as_int rbind]. rewrite IH.
    do 2 f_equal. destruct b; cbn; lia.
Qed.

Lemma Sum_run_group op h rows vs seed r st hp :
  dtype_call (node_dtype op) = ret seed →
  rmap (node_call op) rows = Ok vs →
  add_all seed vs = Ok r →
  run_group (mkFunction Sum [op] (node_dtype op) (Some h)) rows (mkState st hp)
  = (Ok r, with_slot st hp h r).
Proof.
  intros Hseed Hmap Hadd.
  assert (Hinit : initialize (mkFunction Sum [op] (node_dtype op) (Some h))
                    (mkState st hp) = (Ok tt, with_slot st hp h seed)).
  { unfold initialize; cbn [cls fn_dtype]. by rewrite Hseed. }
  unfold run_group. unfold bind at 1. rewrite Hinit. unfold bind at 1.
  rewrite (Sum_update_rows op _ h st hp rows vs seed r Hmap Hadd).
  by apply finalize_with_slot.
Qed.

(** X9. Sum takes an operand of type bool, a subclass of int: the
    constructor accepts it, and a group finalizes to the number of rows
    where the operand is true, an int, and to False when it has no rows.
    An operand of type str is refused by the constructor. *)
Theorem Sum_of_booleans_counts_the_true_rows
    (op : EvalNode) (h : nat) (rows : list context) (s : state) :
  let self := mkFunction Sum [op] (node_dtype op) (Some h) in
  (node_dtype op = t_bool →
     rbind (new Sum [op]) (λ f, allocate f (mkAllocator h))
     = Ok (self, mkAllocator (S h))
     ∧ ∀ bs, rmap (node_call op) rows = Ok (map VBool bs) →
         (run_group self rows s).1
         = Ok (match bs with
               | [] => VBool false
               | _ => VInt (Z.of_nat (count_occ Bool.bool_dec bs true))
               end))
  ∧ (node_dtype op = t_str → new Sum [op] = Raise CompilationError).
Proof.
  intros self. subst self. destruct s as [st hp].
  pose proof (new_single Sum op (one_of [t_int; t_Decimal]) (node_dtype op)
                eq_refl eq_refl) as Hnew.
  split.
  - intros Hdt. split; [rewrite Hnew, Hdt; reflexivity|].
    intros bs Hmap.
    rewrite (Sum_run_group op h rows (map VBool bs) (VBool false)
               (match bs with
                | [] => VBool false
                | _ => VInt (Z.of_nat (count_occ Bool.bool_dec bs true))
                end) st hp);
      [done|by rewrite Hdt|done|].
    destruct bs as [|b bs]; [done|].
    cbn [map]. rewrite add_all_cons. cbn [py_add as_int rbind].
    rewrite add_all_bool. do 2 f_equal. destruct b; cbn; lia.
  - intros Hdt. by rewrite Hnew, Hdt.
Qed.

End AggregatorFacts.

(** ** Column accessors *)

Section ColumnFacts.
Context `{core : CoreLib}.

(** The posting accessors of the fields of the parent entry, narration
    apart, return what the entry accessors return on the parent. *)
Lemma posting_columns_agree_with_entry_columns (posting : Posting) :
  let parent := ETransaction (entry posting) in
  col_call IdColumn posting = col_call IdEntryColumn parent
  ∧ col_call TypeColumn posting = col_call TypeEntryColumn parent
  ∧ col_call FilenameColumn posting = col_call FilenameEntryColumn parent
  ∧ col_call LineNoColumn posting = col_call LineNoEntryColumn parent
  ∧ col_call DateColumn posting = col_call DateEntryColumn parent
  ∧ col_call YearColumn posting = col_call YearEntryColumn parent
  ∧ col_call MonthColumn posting = col_call MonthEntryColumn parent
  ∧ col_call DayColumn posting = col_call DayEntryColumn parent
  ∧ col_call FlagColumn posting = col_call FlagEntryColumn parent
  ∧ col_call PayeeColumn posting = col_call PayeeEntryColumn parent
  ∧ col_call TagsColumn posting = col_call TagsEntryColumn parent
  ∧ col_call LinksColumn posting = col_call LinksEntryColumn parent.
Proof. cbn. repeat split. Qed.

(** With a narration, even an empty one, the two narration accessors agree. *)
Lemma NarrationColumn_agrees_on_a_narration (posting : Posting) (s : string) :
  narration (entry posting) = Some s →
  col_call NarrationColumn posting
  = col_call NarrationEntryColumn (ETransaction (entry posting)).
Proof.
  intros Hs. cbn. rewrite Hs. unfold py_or; cbn.
  destruct (String.eqb_spec s "") as [-> | Hne]; reflexivity.
Qed.

(** C7. On a posting whose position carries no cost, cost_number is the
    Decimal zero and cost_currency the empty string. *)
Theorem cost_columns_without_cost (posting : Posting) :
  lot_cost (position_lot (position posting)) = None →
  col_call CostNumberColumn posting = VDecimal ZERO
  ∧ col_call CostCurrencyColumn posting = VStr "".
Proof. intros Hcost. cbn. by rewrite Hcost. Qed.

(** *** Types and tables of the columns *)

Lemma py_or_opt_str (o : option string) :
  py_or (opt_str o) (VStr "") = VStr (default "" o).
Proof.
  destruct o as [s|]; [|done]. unfold py_or; cbn.
  by destruct (String.eqb_spec s "") as [-> | Hne].
Qed.

Lemma py_or_opt_set (o : option (gset string)) :
  py_or (opt_set o) EMPTY_SET = VSet (default ∅ o).
Proof.
  destruct o as [s|]; [|done]. unfold py_or; cbn.
  case_bool_decide as Hs; [by rewrite Hs|done].
Qed.

Ltac decide_name := apply (bool_decide_unpack _); vm_compute; exact I.

(** X10. What a column returns. The columns tags and links return a set,
    a set of the transaction or the shared empty frozenset. Every other
    column returns a value of the data type that it declares, or None, and
    None only in these places: narration, posting_flag and price of a
    posting, and flag, payee and narration of an entry that is not a
    transaction. *)
Theorem columns_return_their_dtype_or_None :
  (∀ name col posting,
     columns FilterPostingsEnvironment !! name = Some col →
     ((name ∉ ["tags"; "links"])
      ∧ has_dtype (col_dtype col) (col_call col posting) = true)
     ∨ (name ∈ ["tags"; "links"] ∧ col_dtype col = t_set
        ∧ ∃ s, col_call col posting = VSet s)
     ∨ (col_call col posting = VNone
        ∧ name ∈ ["narration"; "posting_flag"; "price"]))
  ∧ (∀ name col e,
       columns FilterEntriesEnvironment !! name = Some col →
       ((name ∉ ["tags"; "links"])
        ∧ has_dtype (col_dtype col) (col_call col e) = true)
       ∨ (name ∈ ["tags"; "links"] ∧ col_dtype col = t_set
          ∧ ∃ s, col_call col e = VSet s)
       ∨ (col_call col e = VNone
          ∧ name ∈ ["flag"; "payee"; "narration"]
          ∧ isinstance_Transaction e = false)).
Proof.
  split.
  - intros name col posting Hcol. apply elem_of_list_to_map_2 in Hcol.
    repeat (apply elem_of_cons in Hcol as [[= -> ->] | Hcol]);
      try (by apply elem_of_nil in Hcol);
      try (left; split; [decide_name|reflexivity]).
    + left. split; [decide_name|]. cbn. by rewrite py_or_opt_str.
    + cbn. destruct (narration (entry posting)).
      * left. split; [decide_name|done].
      * right; right. split; [done|decide_name].
    + right; left. split; [decide_name|]. split; [done|].
      cbn. rewrite py_or_opt_set. eauto.
    + right; left. split; [decide_name|]. split; [done|].
      cbn. rewrite py_or_opt_set. eauto.
    + cbn. destruct (posting_flag posting).
      * left. split; [decide_name|done].
      * right; right. split; [done|decide_name].
    + left. split; [decide_name|]. cbn.
      destruct (lot_cost _); [|done]. by destruct (amount_bool _).
    + left. split; [decide_name|]. cbn.
      destruct (lot_cost _); [|done]. by destruct (amount_bool _).
    + cbn. destruct (price posting).
      * left. split; [decide_name|done].
      * right; right. split; [done|decide_name].
  - intros name col e Hcol. apply elem_of_list_to_map_2 in Hcol.
    repeat (apply elem_of_cons in Hcol as [[= -> ->] | Hcol]);
      try (by apply elem_of_nil in Hcol);
      try (left; split; [decide_name|reflexivity]).
    + destruct e as [t|class_name src d].
      * left. split; [decide_name|done].
      * right; right. split; [done|]. split; [decide_name|done].
    + destruct e as [t|class_name src d].
      * left. split; [decide_name|]. cbn. by rewrite py_or_opt_str.
      * right; right. split; [done|]. split; [decide_name|done].
    + destruct e as [t|class_name src d].
      * left. split; [decide_name|]. cbn. by rewrite py_or_opt_str.
      * right; right. split; [done|]. split; [decide_name|done].
    + right; left. split; [decide_name|]. split; [done|].
      destruct e as [t|class_name src d]; cbn; [rewrite py_or_opt_set|]; eauto.
    + right; left. split; [decide_name|]. split; [done|].
      destruct e as [t|class_name src d]; cbn; [rewrite py_or_opt_set|]; eauto.
Qed.

(** X11. Every column of the FROM clause is a column of the WHERE clause
    and of the targets under the same name and with the same data type,
    and the two return the same value on a posting and on its parent
    transaction, unless the name is narration and the transaction has
    none. *)
Theorem entry_columns_are_posting_columns
    (name : string) (col : EvalColumn directive) :
  columns FilterEntriesEnvironment !! name = Some col →
  ∃ col' : EvalColumn Posting,
    columns FilterPostingsEnvironment !! name = Some col'
    ∧ columns TargetsEnvironment !! name = Some col'
    ∧ col_dtype col' = col_dtype col
    ∧ ∀ posting,
        name ≠ "narration" ∨ is_Some (narration (entry posting)) →
        col_call col' posting = col_call col (ETransaction (entry posting)).
Proof.
  intros Hcol. apply elem_of_list_to_map_2 in Hcol.
  repeat (apply elem_of_cons in Hcol as [[= -> ->] | Hcol]);
    try (by apply elem_of_nil in Hcol).
  all: eexists; split; [reflexivity|]; split; [reflexivity|];
    split; [reflexivity|]; intros posting Hname.
  all: try reflexivity.
  destruct Hname as [Hname | [s Hs]]; [done|].
  by apply NarrationColumn_agrees_on_a_narration with s.
Qed.

(** X12. The functions year, month and day of the date of a row return
    what the columns year, month and day return, on postings and on
    entries. *)
Theorem date_functions_agree_with_date_columns
    (posting : Posting) (e : directive) (dt : dtype) (hd : option nat) :
  let on_posting c := mkFunction c [column_node DateColumn] dt hd in
  let on_entry c := mkFunction c [entry_column_node DateEntryColumn] dt hd in
  Year_call (on_posting Year) (CtxPosting posting)
  = Ok (col_call YearColumn posting)
  ∧ Month_call (on_posting Month) (CtxPosting posting)
    = Ok (col_call MonthColumn posting)
  ∧ Day_call (on_posting Day) (CtxPosting posting)
    = Ok (col_call DayColumn posting)
  ∧ Year_call (on_entry Year) (CtxEntry e) = Ok (col_call YearEntryColumn e)
  ∧ Month_call (on_entry Month) (CtxEntry e) = Ok (col_call MonthEntryColumn e)
  ∧ Day_call (on_entry Day) (CtxEntry e) = Ok (col_call DayEntryColumn e).
Proof. repeat split. Qed.

(** X13. length of the payee, the tags and the links of a posting is
    defined for every posting, and is 0 where the transaction has none.
    length of the narration of a posting is the number of its characters
    when the transaction has one; when it has none, length raises
    TypeError in the WHERE clause and in the targets, and is 0 in the FROM
    clause. *)
Theorem length_of_optional_columns (posting : Posting) (hd : option nat) :
  let len c :=
    Length_call (mkFunction Length [column_node c] t_int hd) (CtxPosting posting) in
  let txn := entry posting in
  len PayeeColumn = Ok (VInt (Z.of_nat (String.length (default "" (payee txn)))))
  ∧ len TagsColumn = Ok (VInt (Z.of_nat (size (default ∅ (tags txn)))))
  ∧ len LinksColumn = Ok (VInt (Z.of_nat (size (default ∅ (links txn)))))
  ∧ (∀ s, narration txn = Some s →
       len NarrationColumn = Ok (VInt (Z.of_nat (String.length s))))
  ∧ (narration txn = None →
       len NarrationColumn = Raise TypeError
       ∧ Length_call
           (mkFunction Length [entry_column_node NarrationEntryColumn] t_int hd)
           (CtxEntry (ETransaction txn)) = Ok (VInt 0)).
Proof.
  intros len txn. subst len txn. unfold Length_call, eval_args.
  cbn [operands rmap rbind column_node entry_column_node node_call item0
       col_call PayeeColumn TagsColumn LinksColumn NarrationColumn
       NarrationEntryColumn].
  rewrite !py_or_opt_str, !py_or_opt_set.
  repeat apply conj; try reflexivity.
  - intros s Hs. by rewrite Hs.
  - intros Hnone. by rewrite Hnone.
Qed.

End ColumnFacts.

(** C2. The posting accessor of the narration does not return what the
    entry accessor returns on the parent: for a posting of a transaction
    without narration, NarrationColumn returns None and
    NarrationEntryColumn the empty string. *)
Theorem NarrationColumn_differs_from_NarrationEntryColumn :
  narration (entry bare_posting) = None
  ∧ col_call NarrationColumn bare_posting = VNone
  ∧ col_call NarrationEntryColumn (ETransaction (entry bare_posting)) = VStr ""
  ∧ col_call NarrationColumn bare_posting
    ≠ col_call NarrationEntryColumn (ETransaction (entry bare_posting)).
Proof. repeat split. discriminate. Qed.

(** C3, as amended. On a transaction and on a posting, an optional payee,
    tags or links field that is None resolves to the empty value of its
    type, in the entry accessor and in the posting accessor, and so does a
    narration that is None in the entry accessor. On an entry that is not a
    transaction, the accessors of the tags and the links return the empty
    set, and those of the payee and the narration return None. *)
Theorem optional_fields_resolve_by_entry_class
    (t : Transaction) (posting : Posting)
    (class_name : string) (src : Source) (d : date) :
  (payee t = None → col_call PayeeEntryColumn (ETransaction t) = VStr "")
  ∧ (narration t = None →
     col_call NarrationEntryColumn (ETransaction t) = VStr "")
  ∧ (tags t = None → col_call TagsEntryColumn (ETransaction t) = VSet ∅)
  ∧ (links t = None → col_call LinksEntryColumn (ETransaction t) = VSet ∅)
  ∧ (payee (entry posting) = None → col_call PayeeColumn posting = VStr "")
  ∧ (tags (entry posting) = None → col_call TagsColumn posting = VSet ∅)
  ∧ (links (entry posting) = None → col_call LinksColumn posting = VSet ∅)
  ∧ col_call TagsEntryColumn (EOther class_name src d) = VSet ∅
  ∧ col_call LinksEntryColumn (EOther class_name src d) = VSet ∅
  ∧ col_call PayeeEntryColumn (EOther class_name src d) = VNone
  ∧ col_call NarrationEntryColumn (EOther class_name src d) = VNone.
Proof.
  cbn. repeat apply conj; try reflexivity; intros Hnone; by rewrite Hnone.
Qed.

(** C3, as stated, fails: an Open directive has no payee, and the entry
    accessor of the payee returns None on it. *)
Lemma optional_fields_are_None_off_transactions :
  ¬ (∀ (e : directive) (posting : Posting),
       (entry_payee e = None → col_call PayeeEntryColumn e = VStr "")
       ∧ (entry_narration e = None →
          col_call NarrationEntryColumn e = VStr "")
       ∧ (entry_tags e = None → col_call TagsEntryColumn e = VSet ∅)
       ∧ (entry_links e = None → col_call LinksEntryColumn e = VSet ∅)
       ∧ (payee (entry posting) = None →
          col_call PayeeColumn posting = VStr "")
       ∧ (narration (entry posting) = None →
          col_call NarrationColumn posting = VStr "")
       ∧ (tags (entry posting) = None → col_call TagsColumn posting = VSet ∅)
       ∧ (links (entry posting) = None →
          col_call LinksColumn posting = VSet ∅)).
Proof.
  intros claim.
  destruct (claim sample_open bare_posting) as [Hpayee _].
  specialize (Hpayee eq_refl). discriminate Hpayee.
Qed.

(** ** Registries and [has_account] *)

Section RegistryFacts.
Context `{core : CoreLib}.

Lemma TargetsEnvironment_functions :
  functions TargetsEnvironment = dict_update SIMPLE_FUNCTIONS AGGREGATOR_FUNCTIONS.
Proof. reflexivity. Qed.

Lemma FilterEntriesEnvironment_functions :
  functions FilterEntriesEnvironment = dict_update SIMPLE_FUNCTIONS ENTRY_FUNCTIONS.
Proof. reflexivity. Qed.

(** The overloads of [sum] in the registry of the aggregators and in the
    functions of the targets environment. *)
Lemma sum_overloads (fns : gmap (string * option dtype) func_class) (t : dtype) :
  fns = AGGREGATOR_FUNCTIONS ∨ fns = functions TargetsEnvironment →
  fns !! ("sum", None) = Some Sum
  ∧ fns !! ("sum", Some t)
    = match t with
      | t_Amount => Some SumAmount
      | t_Position => Some SumPosition
      | t_Inventory => Some SumInventory
      | _ => None
      end.
Proof.
  intros [-> | ->]; rewrite ?TargetsEnvironment_functions;
    destruct t; split; vm_compute; reflexivity.
Qed.

(** C4. In the registry of the aggregators, and in the functions of the
    targets environment, sum resolves to SumAmount, SumPosition and
    SumInventory for an operand of type Amount, Position and Inventory, and
    the node that these construct has type Inventory. For an operand of a
    numeric type, int or Decimal, no compound key is registered and sum
    resolves to the constructor under the bare name, Sum, whose node has
    the type of the operand. For an operand of type str, date or set, sum
    resolves to Sum as well, and the constructor refuses the operand. *)
Theorem sum_resolves_by_first_operand_type
    (fns : gmap (string * option dtype) func_class) (op : EvalNode) :
  fns = AGGREGATOR_FUNCTIONS ∨ fns = functions TargetsEnvironment →
  let resolved := get_function fns "sum" [op] in
  let constructed :=
    rbind resolved (λ c, rbind (new c [op]) (λ f, Ok (fn_dtype f))) in
  (node_dtype op = t_Amount →
     resolved = Ok SumAmount ∧ constructed = Ok t_Inventory)
  ∧ (node_dtype op = t_Position →
     resolved = Ok SumPosition ∧ constructed = Ok t_Inventory)
  ∧ (node_dtype op = t_Inventory →
     resolved = Ok SumInventory ∧ constructed = Ok t_Inventory)
  ∧ (numeric (node_dtype op) →
     fns !! ("sum", Some (node_dtype op)) = None
     ∧ fns !! ("sum", None) = Some Sum
     ∧ resolved = Ok Sum ∧ constructed = Ok (node_dtype op))
  ∧ (node_dtype op ∈ [t_str; t_date; t_set] →
     resolved = Ok Sum ∧ constructed = Raise CompilationError).
Proof.
  intros Hfns resolved constructed.
  destruct (sum_overloads fns (node_dtype op) Hfns) as [Hbare Htyped].
  subst constructed resolved. unfold get_function. rewrite Htyped, Hbare.
  repeat apply conj; intros Ht.
  - rewrite Ht. split; [done|]. cbn [rbind].
    rewrite (new_single SumAmount op (one_of [t_Amount]) t_Inventory)
      by reflexivity.
    by rewrite Ht.
  - rewrite Ht. split; [done|]. cbn [rbind].
    rewrite (new_single SumPosition op (one_of [t_Position]) t_Inventory)
      by reflexivity.
    by rewrite Ht.
  - rewrite Ht. split; [done|]. cbn [rbind].
    rewrite (new_single SumInventory op (one_of [t_Inventory]) t_Inventory)
      by reflexivity.
    by rewrite Ht.
  - assert (Hnew : new Sum [op] = Ok (mkFunction Sum [op] (node_dtype op) None)).
    { rewrite (new_single Sum op (one_of [t_int; t_Decimal]) (node_dtype op))
        by reflexivity.
      by destruct Ht as [Hn | Hn]; rewrite Hn. }
    destruct Ht as [Hn | Hn]; rewrite Hn in *; cbn [rbind]; rewrite Hnew; done.
  - assert (Hnew : new Sum [op] = Raise CompilationError).
    { rewrite (new_single Sum op (one_of [t_int; t_Decimal]) (node_dtype op))
        by reflexivity.
      repeat (apply elem_of_cons in Ht as [Hn | Ht]; [by rewrite Hn|]).
      by apply elem_of_nil in Ht. }
    repeat (apply elem_of_cons in Ht as [Hn | Ht];
            [rewrite Hn in *; cbn [rbind]; by rewrite Hnew|]).
    by apply elem_of_nil in Ht.
Qed.

(** C10. has_account on an entry that is not a transaction is False,
    whatever its operands are, which are not evaluated. On a transaction,
    with an operand that evaluates to a pattern that compiles, it is True
    if and only if the search succeeds on the account of at least one
    posting. It is registered in the entries environment and in no other. *)
Theorem has_account_matches_postings_of_transactions :
  (∀ ops dt hd class_name src d,
     MatchAccount_call (mkFunction MatchAccount ops dt hd)
       (CtxEntry (EOther class_name src d)) = Ok (VBool false))
  ∧ (∀ op dt hd t pattern search,
       node_call op (CtxEntry (ETransaction t)) = Ok (VStr pattern) →
       re_search_ignorecase pattern = Some search →
       ∃ b, MatchAccount_call (mkFunction MatchAccount [op] dt hd)
              (CtxEntry (ETransaction t)) = Ok (VBool b)
          ∧ (b = true ↔
             ∃ posting, posting ∈ postings t
                        ∧ search (pf_account posting) = true))
  ∧ functions FilterEntriesEnvironment !! ("has_account", None)
    = Some MatchAccount
  ∧ (∀ key, functions FilterPostingsEnvironment !! key ≠ Some MatchAccount)
  ∧ (∀ key, functions TargetsEnvironment !! key ≠ Some MatchAccount).
Proof.
  split; [reflexivity|]. split; [|split; [vm_compute; reflexivity|]].
  - intros op dt hd t pattern search Hop Hre.
    eexists. split.
    + unfold MatchAccount_call, eval_args; cbn. rewrite Hop; cbn.
      rewrite Hre. reflexivity.
    + rewrite existsb_exists. split.
      * intros (p & Hp%list_elem_of_In & Hs). eauto.
      * intros (p & Hp%list_elem_of_In & Hs). eauto.
  - assert (Hall : ∀ m : gmap (string * option dtype) func_class,
              map_Forall (λ _ c, c ≠ MatchAccount) m →
              ∀ key, m !! key ≠ Some MatchAccount).
    { intros m Hm key Hkey. by apply (Hm key MatchAccount Hkey). }
    split; apply Hall.
    + change (functions FilterPostingsEnvironment) with SIMPLE_FUNCTIONS.
      apply (bool_decide_unpack _). vm_compute. exact I.
    + rewrite TargetsEnvironment_functions.
      apply (bool_decide_unpack _). vm_compute. exact I.
Qed.

(** X14. The updates that build the tables of functions overwrite
    nothing: every simple function is a function of the three environments,
    every aggregator is a function of the targets, and the one function of
    entries is a function of the FROM clause. No function of the FROM
    clause or of the WHERE clause is an aggregator, and every aggregator
    class is registered under some key. *)
Theorem aggregators_are_functions_of_the_targets_only
    (key : string * option dtype) (c : func_class) :
  (SIMPLE_FUNCTIONS !! key = Some c →
     functions FilterEntriesEnvironment !! key = Some c
     ∧ functions FilterPostingsEnvironment !! key = Some c
     ∧ functions TargetsEnvironment !! key = Some c)
  ∧ (AGGREGATOR_FUNCTIONS !! key = Some c →
       is_aggregator c = true
       ∧ functions TargetsEnvironment !! key = Some c
       ∧ functions FilterEntriesEnvironment !! key = None
       ∧ functions FilterPostingsEnvironment !! key = None)
  ∧ (ENTRY_FUNCTIONS !! key = Some c →
       functions FilterEntriesEnvironment !! key = Some c)
  ∧ (functions FilterEntriesEnvironment !! key = Some c
     ∨ functions FilterPostingsEnvironment !! key = Some c →
       is_aggregator c = false)
  ∧ (is_aggregator c = true →
       ∃ key', functions TargetsEnvironment !! key' = Some c).
Proof.
  rewrite TargetsEnvironment_functions, FilterEntriesEnvironment_functions.
  change (functions FilterPostingsEnvironment) with SIMPLE_FUNCTIONS.
  assert (Hsimple : map_Forall (λ k f,
            dict_update SIMPLE_FUNCTIONS ENTRY_FUNCTIONS !! k = Some f
            ∧ dict_update SIMPLE_FUNCTIONS AGGREGATOR_FUNCTIONS !! k = Some f
            ∧ is_aggregator f = false) SIMPLE_FUNCTIONS)
    by (apply (bool_decide_unpack _); vm_compute; exact I).
  assert (Hagg : map_Forall (λ k f,
            is_aggregator f = true
            ∧ dict_update SIMPLE_FUNCTIONS AGGREGATOR_FUNCTIONS !! k = Some f
            ∧ dict_update SIMPLE_FUNCTIONS ENTRY_FUNCTIONS !! k = None
            ∧ SIMPLE_FUNCTIONS !! k = None) AGGREGATOR_FUNCTIONS)
    by (apply (bool_decide_unpack _); vm_compute; exact I).
  assert (Hentry : map_Forall (λ k f,
            dict_update SIMPLE_FUNCTIONS ENTRY_FUNCTIONS !! k = Some f)
            ENTRY_FUNCTIONS)
    by (apply (bool_decide_unpack _); vm_compute; exact I).
  assert (Hfrom : map_Forall (λ _ f, is_aggregator f = false)
            (dict_update SIMPLE_FUNCTIONS ENTRY_FUNCTIONS))
    by (apply (bool_decide_unpack _); vm_compute; exact I).
  repeat apply conj.
  - intros Hkey. destruct (Hsimple key c Hkey) as (? & ? & ?). done.
  - intros Hkey. exact (Hagg key c Hkey).
  - intros Hkey. exact (Hentry key c Hkey).
  - intros [Hkey | Hkey].
    + exact (Hfrom key c Hkey).
    + by destruct (Hsimple key c Hkey) as (? & ? & ?).
  - intros Hc. destruct c; try discriminate Hc.
    + by exists ("count", None).
    + by exists ("sum", None).
    + by exists ("sum", Some t_Amount).
    + by exists ("sum", Some t_Position).
    + by exists ("sum", Some t_Inventory).
    + by exists ("first", None).
    + by exists ("last", None).
    + by exists ("min", None).
    + by exists ("max", None).
Qed.

End RegistryFacts.

(** ** split_report.py *)

Lemma all_chars_app test (a b : string) :
  all_chars test (a ++ b) = all_chars test a && all_chars test b.
Proof.
  induction a as [|c a IH]; [done|].
  rewrite append_cons. cbn [all_chars]. rewrite IH. by rewrite andb_assoc.
Qed.

Lemma split_from_nonempty (word s : text) :
  word ≠ [] → split_from word s ≠ [].
Proof.
  revert word. induction s as [|c s IH]; intros word Hword.
  - cbn. by destruct word.
  - cbn. destruct (isspace c).
    + by destruct word.
    + apply IH. by destruct word.
Qed.

(** Reading a run of characters that are not whitespace extends the word
    read so far. *)
Lemma split_from_word (w : text) : ∀ word rest,
  forallb (λ c, negb (isspace c)) w = true →
  split_from word (w ++ rest) = split_from (word ++ w) rest.
Proof.
  induction w as [|c w IH]; intros word rest Hw.
  - by rewrite app_nil_r.
  - cbn [forallb] in Hw. apply andb_true_iff in Hw as [Hc Hw].
    cbn [app split_from].
    apply negb_true_iff in Hc. rewrite Hc.
    rewrite IH by done. by rewrite <- app_assoc.
Qed.

Lemma split_from_words (s : text) : ∀ word,
  forallb (λ c, negb (isspace c)) word = true →
  Forall is_word (split_from word s).
Proof.
  induction s as [|c s IH]; intros word Hword.
  - cbn. destruct word; [done|]. by repeat constructor.
  - cbn [split_from]. destruct (isspace c) eqn:Hc.
    + destruct word; [by apply IH|].
      constructor; [done|]. by apply IH.
    + apply IH. rewrite forallb_app, Hword. cbn. by rewrite Hc.
Qed.

Lemma split_whitespace (s : text) :
  forallb isspace s = true → split_from [] s = [].
Proof.
  induction s as [|c s IH]; [done|]. cbn [forallb split_from].
  intros [Hc Hs]%andb_true_iff. rewrite Hc. by apply IH.
Qed.

Lemma split_empty_iff (s : text) :
  split s = [] ↔ forallb isspace s = true.
Proof.
  split; [|apply split_whitespace].
  unfold split. induction s as [|c s IH]; [done|].
  cbn [forallb split_from]. destruct (isspace c) eqn:Hc; [exact IH|].
  intros Hs. by apply split_from_nonempty in Hs.
Qed.

(** split undoes the join of words by single spaces. *)
Lemma split_join_words (ws : list text) :
  Forall is_word ws → split (join [32%N] ws) = ws.
Proof.
  unfold split. induction ws as [|w ws IH]; intros Hws; [done|].
  apply Forall_cons in Hws as [[Hne Hw] Hws].
  destruct ws as [|w' ws].
  - cbn [join]. rewrite <- (app_nil_r w) at 1.
    rewrite split_from_word by done. cbn. by destruct w.
  - change (join [32%N] (w :: w' :: ws))
      with (w ++ 32%N :: join [32%N] (w' :: ws)).
    rewrite split_from_word by done. cbn [split_from].
    change (isspace 32) with true. cbv beta iota.
    rewrite (IH Hws). by destruct w.
Qed.

(** The last pair that names the plugin decides. *)
Lemma get_participants_last before config after :
  "beancount.plugins.split_expenses" ∉ after.*1 →
  get_participants
    (before ++ ("beancount.plugins.split_expenses", config) :: after)
  = match config with
    | Some configuration => Ok (split configuration)
    | None => Raise AttributeError
    end.
Proof.
  intros Hafter. unfold get_participants.
  rewrite reverse_app, reverse_cons, <- app_assoc, list_to_map_app.
  rewrite lookup_union_r.
  - cbn [app list_to_map foldr fst snd]. by rewrite lookup_insert_eq.
  - apply not_elem_of_list_to_map_1.
    by rewrite fmap_reverse, elem_of_reverse.
Qed.

(** X15. get_participants raises KeyError if and only if no pair of the
    plugin option names the split_expenses plugin. Otherwise the last pair
    that names it decides, whatever the pairs before it are: its
    configuration is split into the participants, each of which is a word,
    a text that is not empty and holds no character that is whitespace to
    Python, and a pair without configuration raises AttributeError. *)
Theorem get_participants_reads_the_last_configuration
    (plugin : list (string * option text)) :
  let name := "beancount.plugins.split_expenses" in
  (get_participants plugin = Raise KeyError ↔ name ∉ plugin.*1)
  ∧ (∀ before config after,
       plugin = before ++ (name, config) :: after →
       name ∉ after.*1 →
       get_participants plugin
       = match config with
         | Some configuration => Ok (split configuration)
         | None => Raise AttributeError
         end)
  ∧ (∀ participants,
       get_participants plugin = Ok participants →
       Forall is_word participants).
Proof.
  intros name. split; [|split].
  - unfold get_participants. fold name.
    destruct (list_to_map (reverse plugin) !! name) as [config|] eqn:Hlook.
    + apply elem_of_list_to_map_2 in Hlook. rewrite elem_of_reverse in Hlook.
      assert (name ∈ plugin.*1) as Hin
        by (apply list_elem_of_fmap; by exists (name, config)).
      split; [by destruct config|done].
    + split; [intros _|done].
      apply not_elem_of_list_to_map_2 in Hlook.
      by rewrite fmap_reverse, elem_of_reverse in Hlook.
  - intros before config after -> Hafter. by apply get_participants_last.
  - intros participants. unfold get_participants. fold name.
    destruct (list_to_map (reverse plugin) !! name) as [[configuration|]|];
      try done.
    intros [= <-]. by apply split_from_words.
Qed.

(** X16. A configuration that joins words by single spaces gives back
    these words as the participants, in order, and a configuration gives
    no participant at all if and only if it holds nothing but
    whitespace. *)
Theorem get_participants_splits_the_configuration
    (before after : list (string * option text)) (configuration : text) :
  let name := "beancount.plugins.split_expenses" in
  let plugin := before ++ (name, Some configuration) :: after in
  name ∉ after.*1 →
  (∀ ws, Forall is_word ws → configuration = join [32%N] ws →
     get_participants plugin = Ok ws)
  ∧ (get_participants plugin = Ok []
     ↔ forallb isspace configuration = true).
Proof.
  intros name plugin Hafter. subst plugin name.
  rewrite get_participants_last by done. split.
  - intros ws Hws ->. by rewrite split_join_words.
  - rewrite <- split_empty_iff. split; [by intros [= ->]|by intros ->].
Qed.

Lemma all_chars_replace_space (s : string) :
  all_chars (λ c, negb (Ascii.eqb c " ")) (replace_char " " "-" s) = true.
Proof.
  induction s as [|c s IH]; [done|]. cbn [replace_char all_chars].
  rewrite IH, andb_true_r.
  destruct (Ascii.eqb c " ") eqn:Hc; [done|by rewrite Hc].
Qed.

(** X17. The base of the file names of save_query is the title with its
    spaces replaced by dashes, followed by a dash and the participant. An
    empty part is left out with its dash: a participant that is None or
    empty gives the title alone, an empty title the participant alone.
    When the participant holds no space, neither does the base. *)
Theorem filebase_joins_what_is_not_empty
    (title : string) (participant : option string) :
  filebase title participant
  = match title, default "" participant with
    | _, "" => replace_char " " "-" title
    | "", p => p
    | _, p => (replace_char " " "-" title ++ "-" ++ p)%string
    end
  ∧ ((∀ p, participant = Some p →
        all_chars (λ c, negb (Ascii.eqb c " ")) p = true) →
     all_chars (λ c, negb (Ascii.eqb c " ")) (filebase title participant) = true).
Proof.
  assert (Hform : filebase title participant
                  = match title, default "" participant with
                    | _, "" => replace_char " " "-" title
                    | "", p => p
                    | _, p => (replace_char " " "-" title ++ "-" ++ p)%string
                    end).
  { unfold filebase. destruct title as [|c t], participant as [[|d p]|];
      reflexivity. }
  split; [exact Hform|]. intros Hp. rewrite Hform.
  destruct participant as [[|d p]|]; cbn [default];
    try (destruct title; apply all_chars_replace_space).
  specialize (Hp _ eq_refl). destruct title as [|c t]; [exact Hp|].
  unfold id. cbv iota.
  rewrite !all_chars_app, all_chars_replace_space, Hp. reflexivity.
Qed.

(** ** The theorems on the sample rows *)

Section Samples.
#[local] Existing Instance sample_core.



Lemma Sum_is_order_independent_witness :
  let self := mkFunction Sum [column_node NumberColumn] t_Decimal (Some 0%nat) in
  rbind (new Sum [column_node NumberColumn]) (λ f, allocate f (mkAllocator 0))
  = Ok (self, mkAllocator 1)
  ∧ fst (run_group (core := sample_core) self sample_rows empty_state)
    = Ok (VDecimal (mkDecimal 35 0))
  ∧ run_group self (rev sample_rows) empty_state
    = run_group self sample_rows empty_state.
Proof.
  apply (Sum_is_order_independent (core := sample_core)
           (column_node NumberColumn) 0%nat sample_rows (rev sample_rows)
           [VDecimal (mkDecimal 10 0); VDecimal (mkDecimal 20 0);
            VDecimal (mkDecimal 5 0)] 0%Z empty_state).
  - right; reflexivity.
  - reflexivity.
  - repeat constructor.
  - intros _. split; [by vm_compute|].
    split; [by repeat constructor|reflexivity].
  - apply Permutation_rev.
Defined.

(** C8, as stated, fails: the context keeps 28 digits of every partial
    sum. From 1E+30, 1 and -1E+30 in this order, the 1 is lost when it is
    added to 1E+30 and the group sums to zero; with the 1 added last the
    group sums to 1. *)
Lemma Sum_of_Decimals_depends_on_the_order :
  ¬ (∀ (op : EvalNode) (h : nat) (rows rows' : list context)
       (vs : list value) (s : state (core := sample_core)),
       numeric (node_dtype op) →
       rmap (node_call op) rows = Ok vs →
       Forall (λ v, has_dtype (node_dtype op) v = true) vs →
       Permutation rows rows' →
       fst (run_group (mkFunction Sum [op] (node_dtype op) (Some h)) rows' s)
       = fst (run_group (mkFunction Sum [op] (node_dtype op) (Some h)) rows s)).
Proof.
  intros claim.
  specialize (claim (column_node NumberColumn) 0%nat large_rows
                large_rows_reordered
                [VDecimal (mkDecimal 1 30); VDecimal (mkDecimal 1 0);
                 VDecimal (mkDecimal (-1) 30)]
                empty_state (or_intror eq_refl) eq_refl).
  assert (Hperm : Permutation large_rows large_rows_reordered)
    by (apply perm_skip, perm_swap).
  specialize (claim ltac:(repeat constructor) Hperm).
  vm_compute in claim. discriminate claim.
Qed.

Lemma First_and_Last_of_group_witness :
  let price := VAmount (mkAmount (mkDecimal 13 (-1)) "CAD") in
  let first := mkFunction First [column_node PriceColumn] t_Amount (Some 0%nat) in
  let last := mkFunction Last [column_node PriceColumn] t_Amount (Some 0%nat) in
  fst (run_group (core := sample_core) first sample_rows empty_state) = Ok price
  ∧ (VNone ≠ VNone →
     fst (run_group (core := sample_core) first sample_rows empty_state) = Ok VNone)
  ∧ fst (run_group (core := sample_core) last sample_rows empty_state) = Ok VNone.
Proof.
  apply (First_and_Last_of_group (core := sample_core)
           (column_node PriceColumn) 0%nat sample_rows VNone
           [VAmount (mkAmount (mkDecimal 13 (-1)) "CAD"); VNone] empty_state).
  reflexivity.
Defined.

(** C6, as stated, fails: the first posting of the sample rows has no
    price, and First over the prices finalizes to the price of the second. *)
Lemma First_does_not_keep_a_None_seen_first :
  ¬ (∀ (op : EvalNode) (h : nat) (rows : list context) (v : value)
       (vs : list value) (s : state (core := sample_core)),
       rmap (node_call op) rows = Ok (v :: vs) →
       fst (run_group (mkFunction First [op] (node_dtype op) (Some h)) rows s)
       = Ok v).
Proof.
  intros claim.
  specialize (claim (column_node PriceColumn) 0%nat sample_rows VNone
                [VAmount (mkAmount (mkDecimal 13 (-1)) "CAD"); VNone]
                empty_state eq_refl).
  vm_compute in claim. discriminate claim.
Qed.

Lemma optional_fields_resolve_by_entry_class_witness :
  col_call PayeeEntryColumn (ETransaction bare_txn) = VStr ""
  ∧ col_call NarrationEntryColumn (ETransaction bare_txn) = VStr ""
  ∧ col_call TagsEntryColumn (ETransaction bare_txn) = VSet ∅
  ∧ col_call LinksEntryColumn (ETransaction bare_txn) = VSet ∅
  ∧ col_call PayeeColumn bare_posting = VStr ""
  ∧ col_call TagsColumn bare_posting = VSet ∅
  ∧ col_call LinksColumn bare_posting = VSet ∅
  ∧ col_call PayeeEntryColumn sample_open = VNone.
Proof.
  destruct (optional_fields_resolve_by_entry_class bare_txn bare_posting
              "Open" (mkSource "ledger.beancount" 1) (mkDate 2014 1 1))
    as (H1 & H2 & H3 & H4 & H5 & H6 & H7 & _ & _ & H10 & _).
  repeat apply conj;
    [ apply H1 | apply H2 | apply H3 | apply H4 | apply H5 | apply H6
    | apply H7 | exact H10 ]; reflexivity.
Defined.

Lemma cost_columns_without_cost_witness :
  lot_cost (position_lot (position bare_posting)) = None
  ∧ col_call (CostNumberColumn (core := sample_core)) bare_posting = VDecimal ZERO
  ∧ col_call (CostCurrencyColumn (core := sample_core)) bare_posting = VStr "".
Proof.
  split; [reflexivity|].
  apply (cost_columns_without_cost (core := sample_core) bare_posting).
  reflexivity.
Defined.

Lemma aggregator_writes_its_slot_only_witness :
  let self := mkFunction SumPosition [column_node ChangeColumn] t_Inventory (Some 0%nat) in
  let row := CtxPosting bare_posting in
  let s : state (core := sample_core) :=
    mkState {[ 0%nat := VInventory 1%positive; 1%nat := VInt 7 ]}
            {[ 1%positive := [] ]} in
  store (initialize self s).2 !! 1%nat = store s !! 1%nat
  ∧ store (update self row s).2 !! 1%nat = store s !! 1%nat
  ∧ (finalize self s).2 = s
  ∧ (∀ l, is_Some (heap s !! l) → heap (initialize self s).2 !! l = heap s !! l)
  ∧ (∀ h l, handle self = Some h → store s !! h ≠ Some (VInventory l) →
       heap (update self row s).2 !! l = heap s !! l).
Proof.
  apply (aggregator_writes_its_slot_only (core := sample_core)
           (mkFunction SumPosition [column_node ChangeColumn] t_Inventory (Some 0%nat))
           (CtxPosting bare_posting)
           (mkState {[ 0%nat := VInventory 1%positive; 1%nat := VInt 7 ]}
                    {[ 1%positive := [] ]}) 1%nat).
  discriminate.
Defined.

Lemma sum_resolves_by_first_operand_type_witness :
  let fns := functions (TargetsEnvironment (core := sample_core)) in
  let resolved := get_function fns "sum" [column_node ChangeColumn] in
  let constructed :=
    rbind resolved (λ c, rbind (new c [column_node ChangeColumn])
                           (λ f, Ok (fn_dtype f))) in
  resolved = Ok SumPosition ∧ constructed = Ok t_Inventory.
Proof.
  apply (proj1 (proj2 (sum_resolves_by_first_operand_type (core := sample_core)
           (functions TargetsEnvironment) (column_node ChangeColumn)
           (or_intror eq_refl)))).
  reflexivity.
Defined.

Lemma has_account_matches_postings_of_transactions_witness :
  ∃ b, MatchAccount_call (core := sample_core)
         (mkFunction MatchAccount [string_constant "expenses:FOOD"] t_bool None)
         (CtxEntry (ETransaction sample_txn)) = Ok (VBool b)
     ∧ (b = true ↔
        ∃ posting, posting ∈ postings sample_txn
                   ∧ contains (lower "expenses:FOOD") (lower (pf_account posting))
                     = true).
Proof.
  apply (proj1 (proj2 (has_account_matches_postings_of_transactions
                         (core := sample_core)))
           (string_constant "expenses:FOOD") t_bool None sample_txn
           "expenses:FOOD"
           (λ s, contains (lower "expenses:FOOD") (lower s))).
  - reflexivity.
  - reflexivity.
Defined.

Lemma First_keeps_the_value_once_set_witness :
  let self := mkFunction First [raising_node] t_str (Some 0%nat) in
  let s : state (core := sample_core) := with_slot ∅ ∅ 0%nat (VStr "Cafe") in
  update_rows self sample_rows s = (Ok tt, s)
  ∧ (let* _ := update_rows self sample_rows in finalize self) s
    = (Ok (VStr "Cafe"), s).
Proof.
  apply (First_keeps_the_value_once_set (core := sample_core)
           [raising_node] t_str 0%nat ∅ ∅ (VStr "Cafe") sample_rows).
  discriminate.
Defined.

Lemma empty_group_results_witness :
  (run_group (core := sample_core)
     (mkFunction Last [raising_node] t_str (Some 0%nat)) [] empty_state).1
  = Ok VNone
  ∧ ∃ l,
      let self :=
        mkFunction SumPosition [column_node ChangeColumn] t_Inventory (Some 0%nat) in
      (run_group (core := sample_core) self [] empty_state).1 = Ok (VInventory l)
      ∧ heap empty_state !! l = None
      ∧ heap (run_group self [] empty_state).2 !! l = Some [].
Proof.
  split.
  - apply (proj1 (empty_group_results (core := sample_core)
                    Last [raising_node] t_str 0%nat empty_state)).
    by right.
  - apply (proj2 (empty_group_results (core := sample_core)
                    SumPosition [column_node ChangeColumn] t_Inventory 0%nat
                    empty_state)).
    right. by left.
Defined.

Lemma extremum_stays_at_the_seed_witness :
  run_group (core := sample_core)
    (mkFunction Max [column_node NumberColumn] t_Decimal (Some 0%nat))
    negative_rows (mkState ∅ ∅)
  = (Ok (VDecimal ZERO), with_slot ∅ ∅ 0%nat (VDecimal ZERO)).
Proof.
  apply (extremum_stays_at_the_seed (core := sample_core)
           Max (column_node NumberColumn) 0%nat negative_rows
           [VDecimal (mkDecimal (-10) 0); VDecimal (mkDecimal (-20) 0);
            VDecimal (mkDecimal (-5) 0)] ∅ ∅).
  - by right.
  - by right.
  - reflexivity.
  - repeat constructor.
Defined.

Lemma extremum_of_dates_cannot_initialize_witness :
  let min := mkFunction Min [column_node DateColumn] t_date (Some 0%nat) in
  let first := mkFunction First [column_node DateColumn] t_date (Some 0%nat) in
  rbind (new Min [column_node DateColumn]) (λ f, allocate f (mkAllocator 0))
  = Ok (min, mkAllocator 1)
  ∧ initialize (core := sample_core) min empty_state
    = (Raise TypeError, empty_state)
  ∧ run_group (core := sample_core) min sample_rows empty_state
    = (Raise TypeError, empty_state)
  ∧ initialize (core := sample_core) first empty_state
    = (Ok tt, with_slot ∅ ∅ 0%nat VNone).
Proof.
  destruct (extremum_of_dates_cannot_initialize (core := sample_core)
              Min (column_node DateColumn) 0%nat sample_rows empty_state eq_refl)
    as (Hnew & Hmin & _).
  destruct (extremum_of_dates_cannot_initialize (core := sample_core)
              First (column_node DateColumn) 0%nat sample_rows empty_state eq_refl)
    as (_ & _ & Hfirst).
  split; [apply Hnew; rewrite !elem_of_cons; auto|].
  split; [apply Hmin; by left|].
  split; [apply Hmin; by left|].
  apply Hfirst. by left.
Defined.

Lemma inventory_sums_fold_in_row_order_witness :
  let l := fresh (dom (heap (core := sample_core) empty_state)) in
  run_group (core := sample_core)
    (mkFunction SumPosition [column_node ChangeColumn] t_Inventory (Some 0%nat))
    sample_rows empty_state
  = (Ok (VInventory l),
     mkState (<[0%nat := VInventory l]> ∅)
       (<[l := fold_left add_position (map pf_position sample_legs) []]> ∅)).
Proof.
  apply (proj1 (proj2 (inventory_sums_fold_in_row_order (core := sample_core)
                         (column_node ChangeColumn) 0%nat sample_rows empty_state))
           (map pf_position sample_legs)).
  reflexivity.
Defined.

Lemma group_leaves_earlier_inventories_witness :
  let self := mkFunction SumAmount [column_node PriceColumn] t_Inventory (Some 0%nat) in
  let s : state (core := sample_core) :=
    mkState {[ 0%nat := VInventory 1%positive ]}
            {[ 1%positive := [mkPosition (mkLot "USD" None None) (mkDecimal 35 0)] ]} in
  (∀ l, is_Some (heap s !! l) →
     heap (run_group self sample_rows s).2 !! l = heap s !! l)
  ∧ (∀ v, (run_group self sample_rows s).1 = Ok v →
       ∃ l, v = VInventory l ∧ heap s !! l = None).
Proof.
  apply (group_leaves_earlier_inventories (core := sample_core)
           (mkFunction SumAmount [column_node PriceColumn] t_Inventory (Some 0%nat))
           0%nat sample_rows).
  - rewrite !elem_of_cons; auto.
  - reflexivity.
Defined.

Lemma group_result_ignores_the_prior_state_witness :
  let self := mkFunction Max [column_node NumberColumn] t_Decimal (Some 0%nat) in
  (run_group (core := sample_core) self sample_rows empty_state).1
  = (run_group self sample_rows
       (mkState {[ 0%nat := VDecimal (mkDecimal 99 0) ]} ∅)).1.
Proof.
  apply (group_result_ignores_the_prior_state (core := sample_core)
           (mkFunction Max [column_node NumberColumn] t_Decimal (Some 0%nat))
           0%nat sample_rows).
  - split; [rewrite !elem_of_cons; auto 10|discriminate].
  - reflexivity.
Defined.

Lemma steps_of_another_aggregator_do_not_interfere_witness :
  let self := mkFunction Count [column_node AccountColumn] t_int (Some 0%nat) in
  let other :=
    mkFunction SumPosition [column_node ChangeColumn] t_Inventory (Some 1%nat) in
  let row := CtxPosting bare_posting in
  let s : state (core := sample_core) :=
    mkState {[ 0%nat := VInt 2; 1%nat := VInventory 1%positive ]}
            {[ 1%positive := [] ]} in
  (update self row (update other row s).2).1 = (update self row s).1
  ∧ store (update self row (update other row s).2).2 !! 0%nat
    = store (update self row s).2 !! 0%nat
  ∧ (finalize self (update other row s).2).1 = (finalize self s).1.
Proof.
  apply (steps_of_another_aggregator_do_not_interfere (core := sample_core)
           (mkFunction Count [column_node AccountColumn] t_int (Some 0%nat))
           (mkFunction SumPosition [column_node ChangeColumn] t_Inventory
              (Some 1%nat))
           0%nat (CtxPosting bare_posting) (CtxPosting bare_posting)).
  - split; [rewrite !elem_of_cons; auto 10|discriminate].
  - reflexivity.
  - discriminate.
  - by right.
Defined.

Lemma Sum_of_booleans_counts_the_true_rows_witness :
  rbind (new Sum [true_constant]) (λ f, allocate f (mkAllocator 0))
  = Ok (mkFunction Sum [true_constant] t_bool (Some 0%nat), mkAllocator 1)
  ∧ (run_group (core := sample_core)
       (mkFunction Sum [true_constant] t_bool (Some 0%nat))
       sample_rows empty_state).1
    = Ok (VInt 3).
Proof.
  destruct (proj1 (Sum_of_booleans_counts_the_true_rows (core := sample_core)
                     true_constant 0%nat sample_rows empty_state) eq_refl)
    as [Hnew Hrun].
  split; [exact Hnew|].
  apply (Hrun [true; true; true]). reflexivity.
Defined.

Lemma columns_return_their_dtype_or_None_witness :
  (("narration" ∉ ["tags"; "links"])
   ∧ has_dtype (col_dtype NarrationColumn) (col_call NarrationColumn bare_posting)
     = true)
  ∨ ("narration" ∈ ["tags"; "links"] ∧ col_dtype NarrationColumn = t_set
     ∧ ∃ s, col_call NarrationColumn bare_posting = VSet s)
  ∨ (col_call NarrationColumn bare_posting = VNone
     ∧ "narration" ∈ ["narration"; "posting_flag"; "price"]).
Proof.
  apply (proj1 (columns_return_their_dtype_or_None (core := sample_core))
           "narration" NarrationColumn bare_posting).
  vm_compute. reflexivity.
Defined.

Lemma entry_columns_are_posting_columns_witness :
  ∃ col' : EvalColumn Posting,
    columns (FilterPostingsEnvironment (core := sample_core)) !! "payee"
    = Some col'
    ∧ columns TargetsEnvironment !! "payee" = Some col'
    ∧ col_dtype col' = col_dtype PayeeEntryColumn
    ∧ ∀ posting,
        "payee" ≠ "narration" ∨ is_Some (narration (entry posting)) →
        col_call col' posting
        = col_call PayeeEntryColumn (ETransaction (entry posting)).
Proof.
  apply (entry_columns_are_posting_columns (core := sample_core)
           "payee" PayeeEntryColumn).
  vm_compute. reflexivity.
Defined.

Lemma length_of_optional_columns_witness :
  Length_call (mkFunction Length [column_node NarrationColumn] t_int None)
    (CtxPosting bare_posting) = Raise TypeError
  ∧ Length_call
      (mkFunction Length [entry_column_node NarrationEntryColumn] t_int None)
      (CtxEntry (ETransaction (entry bare_posting))) = Ok (VInt 0).
Proof.
  apply (proj2 (proj2 (proj2 (proj2
           (length_of_optional_columns bare_posting None))))).
  reflexivity.
Defined.

Lemma aggregators_are_functions_of_the_targets_only_witness :
  is_aggregator SumPosition = true
  ∧ functions (TargetsEnvironment (core := sample_core))
      !! ("sum", Some t_Position) = Some SumPosition
  ∧ functions (FilterEntriesEnvironment (core := sample_core))
      !! ("sum", Some t_Position) = None
  ∧ functions (FilterPostingsEnvironment (core := sample_core))
      !! ("sum", Some t_Position) = None.
Proof.
  apply (proj1 (proj2 (aggregators_are_functions_of_the_targets_only
                         (core := sample_core)
                         ("sum", Some t_Position) SumPosition))).
  vm_compute. reflexivity.
Defined.

Lemma get_participants_reads_the_last_configuration_witness :
  get_participants
    (sample_plugin
       ++ [("beancount.plugins.split_expenses", Some (text_of "Ana Bo"))])
  = Ok (split (text_of "Ana Bo")).
Proof.
  apply (proj1 (proj2 (get_participants_reads_the_last_configuration
                         (sample_plugin
                            ++ [("beancount.plugins.split_expenses",
                                 Some (text_of "Ana Bo"))])))
           sample_plugin (Some (text_of "Ana Bo")) []).
  - reflexivity.
  - apply not_elem_of_nil.
Defined.

Lemma get_participants_splits_the_configuration_witness :
  get_participants
    [ ("beancount.plugins.auto_accounts", None);
      ("beancount.plugins.split_expenses",
       Some (text_of "Martin Caroline Sheila")) ]
  = Ok [text_of "Martin"; text_of "Caroline"; text_of "Sheila"].
Proof.
  apply (proj1 (get_participants_splits_the_configuration
                  [("beancount.plugins.auto_accounts", None)] []
                  (text_of "Martin Caroline Sheila") (not_elem_of_nil _))
           [text_of "Martin"; text_of "Caroline"; text_of "Sheila"]).
  - repeat constructor; discriminate.
  - reflexivity.
Defined.

Lemma filebase_joins_what_is_not_empty_witness :
  all_chars (λ c, negb (Ascii.eqb c " "))
    (filebase "Expenses by category" (Some "Martin")) = true.
Proof.
  apply (proj2 (filebase_joins_what_is_not_empty
                  "Expenses by category" (Some "Martin"))).
  intros p [= <-]. reflexivity.
Defined.

End Samples.
